(** * morning-news: the recency filter, the deduplicator and the run loop

    A shallow embedding of the shared pipeline of [utils.py]
    ([parse_relative_time] and its converters, [is_within_timeframe],
    [validate_article], [deduplicate_articles]) and of the collection
    run of [app.py] ([run_scraping_task], [api_stop_scraping]), with the
    properties the specification states about them; and, after these,
    of further code of the same files ([filter_articles_by_timeframe],
    [truncate_text], [sanitize_filename], [normalize_whitespace],
    [get_collection_hours], [api_start_scraping], the target dates) and
    of [scrapers/others.py] ([fetch_all_others], [validate_article_data],
    [deduplicate_articles]), with properties read off the code.

    Conventions.
    - A Python [str] is a list of Unicode code points ([N]).
    - Python numbers are exact rationals ([Q]): [int] values are integral,
      [/] is exact division.  Rounding and the range of binary floating
      point are not represented.
    - [None] is [None]; an exception that a function lets escape is an
      explicit outcome of the functions that can raise.
    - The clock ([datetime.now()]) is an argument. *)

From Stdlib Require Import ZArith NArith QArith Lia Bool String Ascii.
From stdpp Require Import base gmap sets list strings pretty.

(** ** Strings *)

Abbreviation char := N (only parsing).
Abbreviation str := (list N) (only parsing).

(** A literal of the program text, as a list of code points. *)
Fixpoint py (s : string) : str :=
  match s with
  | EmptyString => []
  | String a s' => N_of_ascii a :: py s'
  end.

(** [Py_UNICODE_ISSPACE]: the characters of [str.isspace], [str.strip],
    [str.split] and of the class [\s]. *)
Definition is_space (c : char) : bool :=
  ((9 <=? c) && (c <=? 13) || (28 <=? c) && (c <=? 32)
   || (c =? 133) || (c =? 160) || (c =? 5760)
   || (8192 <=? c) && (c <=? 8202)
   || (c =? 8232) || (c =? 8233) || (c =? 8239) || (c =? 8287)
   || (c =? 12288))%N.

(** [s.lstrip()], [s.rstrip()], [s.strip()]. *)
Fixpoint lstrip (s : str) : str :=
  match s with
  | c :: s' => if is_space c then lstrip s' else s
  | [] => []
  end.

Definition rstrip (s : str) : str := rev (lstrip (rev s)).

Definition strip (s : str) : str := rstrip (lstrip s).

(** [s.rstrip(chars)] for a one-character [chars]. *)
Fixpoint lstrip_char (x : char) (s : str) : str :=
  match s with
  | c :: s' => if (c =? x)%N then lstrip_char x s' else s
  | [] => []
  end.

Definition rstrip_char (x : char) (s : str) : str :=
  rev (lstrip_char x (rev s)).

(** [s.startswith(p)]. *)
Fixpoint startswith (p s : str) : bool :=
  match p, s with
  | [], _ => true
  | a :: p', b :: s' => (a =? b)%N && startswith p' s'
  | _ :: _, [] => false
  end.

(** [p in s] for strings: [p] occurs as a contiguous slice of [s]. *)
Fixpoint contains (p s : str) : bool :=
  startswith p s ||
  match s with
  | [] => false
  | _ :: s' => contains p s'
  end.

(** [s.split()]: the maximal runs of non-space characters. *)
Fixpoint split_ws_go (cur : str) (s : str) : list str :=
  match s with
  | [] => match cur with [] => [] | _ => [rev cur] end
  | c :: s' =>
      if is_space c
      then match cur with
           | [] => split_ws_go [] s'
           | _ => rev cur :: split_ws_go [] s'
           end
      else split_ws_go (c :: cur) s'
  end.

Definition split_ws (s : str) : list str := split_ws_go [] s.

(** ** The character database

    [str.lower], the classes [\d] and [\w] and case-insensitive matching
    read the Unicode character database of the interpreter.  The
    development is parametric in it. *)
Class Unicode := {
  (** [str.lower()] *)
  str_lower : str → str;
  (** [Py_UNICODE_ISALNUM]: with [_], the class [\w] *)
  is_alnum : char → bool;
  (** [Py_UNICODE_TODECIMAL]: the class [\d] and the digits of [int()] *)
  decimal : char → option Z;
  (** a pattern literal against a text character under [re.IGNORECASE] *)
  ci_match : char → char → bool;
}.

Definition is_decimal `{Unicode} (c : char) : bool :=
  match decimal c with Some _ => true | None => false end.

Definition is_word `{Unicode} (c : char) : bool :=
  is_alnum c || (c =? 95)%N.

(** The Basic Latin rows of the database. *)
Definition ascii_upper (c : char) : bool := ((65 <=? c) && (c <=? 90))%N.
Definition ascii_lower (c : char) : bool := ((97 <=? c) && (c <=? 122))%N.
Definition ascii_digit (c : char) : bool := ((48 <=? c) && (c <=? 57))%N.

Definition ascii_tolower (c : char) : char :=
  if ascii_upper c then (c + 32)%N else c.

Definition ascii_decimal (c : char) : option Z :=
  if ascii_digit c then Some (Z.of_N c - 48)%Z else None.

(** The database cut down to Basic Latin: every other character is
    caseless, and neither a digit nor alphanumeric.  It agrees with the
    interpreter on 7-bit text and is the instance the closed examples
    below are evaluated with. *)
#[export] Instance basic_latin : Unicode := {|
  str_lower := map ascii_tolower;
  is_alnum c := ascii_upper c || ascii_lower c || ascii_digit c;
  decimal := ascii_decimal;
  ci_match p t := (ascii_tolower p =? ascii_tolower t)%N;
|}.

(** Characters on which every database has to agree with the Basic Latin
    rows for the relative-time patterns: 7-bit characters other than
    capitals, the Devanagari letters and signs below the Devanagari
    digits, and white space. *)
Definition plain (c : char) : bool :=
  ((c <? 128) && negb (ascii_upper c) || (2304 <=? c) && (c <=? 2405))%N
  || is_space c.

Class UnicodeLaws (U : Unicode) : Prop := {
  decimal_plain : ∀ c, plain c = true → decimal c = ascii_decimal c;
  ci_match_plain : ∀ p t, plain p = true → plain t = true →
                           ci_match p t = (p =? t)%N;
}.

(** [int(s)] for the strings the program passes to it, decimal digits
    with white space around them at most; [None] is [ValueError]. *)
Fixpoint int_digits `{Unicode} (acc : Z) (s : str) : option Z :=
  match s with
  | [] => Some acc
  | c :: s' =>
      match decimal c with
      | Some d => int_digits (10 * acc + d)%Z s'
      | None => None
      end
  end.

Definition int_of `{Unicode} (s : str) : option Z :=
  match strip s with
  | [] => None
  | d => int_digits 0 d
  end.

(** ** Regular expressions

    The fragment of [re] the program uses, matched by backtracking in the
    order of [sre]: alternatives left to right, greedy repetition longest
    first, lazy repetition shortest first. *)
Inductive regex : Type :=
  | Eps                          (* empty pattern *)
  | Chr (c : char)               (* a literal character *)
  | Cls (p : char → bool)        (* a character class *)
  | Cat (r1 r2 : regex)          (* r1 r2 *)
  | Alt (r1 r2 : regex)          (* r1|r2 *)
  | Star (p : char → bool)       (* c*  for a class c *)
  | Lazy (p : char → bool)       (* c*? for a class c *)
  | Eol.                         (* $ *)

Definition Opt (r : regex) : regex := Alt r Eps.
Definition Plus (p : char → bool) : regex := Cat (Cls p) (Star p).

(** A literal string. *)
Fixpoint Str (s : str) : regex :=
  match s with
  | [] => Eps
  | c :: s' => Cat (Chr c) (Str s')
  end.

(** [.]: any character but a line feed. *)
Definition dot (c : char) : bool := negb (c =? 10)%N.

(** [$] without [re.MULTILINE]: at the end, or before a final line feed. *)
Definition at_eol (s : str) : bool :=
  match s with
  | [] => true
  | [c] => (c =? 10)%N
  | _ => false
  end.

Section Matcher.
Context `{Unicode} {A : Type}.

Fixpoint star_greedy (p : char → bool) (s : str)
    (k : str → option A) : option A :=
  match s with
  | c :: s' =>
      if p c
      then match star_greedy p s' k with
           | Some x => Some x
           | None => k s
           end
      else k s
  | [] => k []
  end.

Fixpoint star_lazy (p : char → bool) (s : str)
    (k : str → option A) : option A :=
  match k s with
  | Some x => Some x
  | None =>
      match s with
      | c :: s' => if p c then star_lazy p s' k else None
      | [] => None
      end
  end.

(** [re_match ic r s k]: match [r] at the front of [s] and pass what is
    left of [s] to [k]; when [k] refuses, backtrack.  [ic] is
    [re.IGNORECASE]. *)
Fixpoint re_match (ic : bool) (r : regex) (s : str)
    (k : str → option A) : option A :=
  match r with
  | Eps => k s
  | Chr c =>
      match s with
      | t :: s' =>
          if (if ic then ci_match c t else (c =? t)%N) then k s' else None
      | [] => None
      end
  | Cls p =>
      match s with
      | t :: s' => if p t then k s' else None
      | [] => None
      end
  | Cat r1 r2 => re_match ic r1 s (λ s', re_match ic r2 s' k)
  | Alt r1 r2 =>
      match re_match ic r1 s k with
      | Some x => Some x
      | None => re_match ic r2 s k
      end
  | Star p => star_greedy p s k
  | Lazy p => star_lazy p s k
  | Eol => if at_eol s then k s else None
  end.
End Matcher.

(** The slice of [s] in front of its suffix [rest]. *)
Definition consumed (s rest : str) : str :=
  take (length s - length rest) s.

Section Search.
Context `{Unicode}.

(** A match of [(g)rest] at the front of [s]: the text of group 1. *)
Definition match_group1 (ic : bool) (g rest : regex) (s : str)
    : option str :=
  re_match ic g s (λ s1,
    re_match ic rest s1 (λ _, Some (consumed s s1))).

(** [re.search(pattern, s).group(1)] for a pattern [(g)rest]: the
    leftmost position with a match. *)
Fixpoint re_search1 (ic : bool) (g rest : regex) (s : str)
    : option str :=
  match match_group1 ic g rest s with
  | Some x => Some x
  | None =>
      match s with
      | [] => None
      | _ :: s' => re_search1 ic g rest s'
      end
  end.

(** The length of the match of [r] at the front of [s]. *)
Definition match_len (ic : bool) (r : regex) (s : str) : option nat :=
  re_match ic r s (λ rest, Some (length s - length rest)).

(** [re.sub(r, repl, s)] for a pattern without anchor at the start and
    with no empty match: the non-overlapping matches from the left are
    replaced.  [skip] counts the characters of the current match still
    to be dropped. *)
Fixpoint re_sub_go (ic : bool) (r : regex) (repl : str)
    (skip : nat) (s : str) : str :=
  match s with
  | [] => []
  | c :: s' =>
      match skip with
      | S n => re_sub_go ic r repl n s'
      | O =>
          match match_len ic r s with
          | Some (S n) => repl ++ re_sub_go ic r repl n s'
          | _ => c :: re_sub_go ic r repl 0 s'
          end
      end
  end.

Definition re_sub (ic : bool) (r : regex) (repl : str) (s : str) : str :=
  re_sub_go ic r repl 0 s.

(** [re.sub('^' r, '', s)]: only a match at position 0 is removed. *)
Definition re_sub_prefix (ic : bool) (r : regex) (s : str) : str :=
  match match_len ic r s with
  | Some n => drop n s
  | None => s
  end.
End Search.

(** ** Dates and times ([datetime]) *)

Record naive : Type := Naive {
  year : Z; month : Z; day : Z;
  hour : Z; minute : Z; second : Z; microsecond : Z;
}.

(** A [datetime]: its fields and, for an aware value, the offset of its
    [tzinfo] from UTC in seconds. *)
Record datetime : Type := Datetime {
  wall : naive;
  utcoffset : option Z;
}.

(** The clock of the run: [datetime.now()] and
    [datetime.now(timezone.utc)]. *)
Record clock : Type := Clock {
  local_now : naive;
  utc_now : naive;
}.

Definition datetime_now (clk : clock) : datetime :=
  Datetime (local_now clk) None.

Definition datetime_now_utc (clk : clock) : datetime :=
  Datetime (utc_now clk) (Some 0%Z).

Section Calendar.
Local Open Scope Z_scope.

Definition is_leap (y : Z) : bool :=
  (y mod 4 =? 0) && (negb (y mod 100 =? 0) || (y mod 400 =? 0)).

Definition days_before_year (y : Z) : Z :=
  let p := y - 1 in p * 365 + p / 4 - p / 100 + p / 400.

Definition days_in_month (y m : Z) : Z :=
  if m =? 2 then (if is_leap y then 29 else 28)
  else if (m =? 4) || (m =? 6) || (m =? 9) || (m =? 11) then 30
  else 31.

Definition days_before_month (y m : Z) : Z :=
  fold_right Z.add 0
    (map (days_in_month y) (map Z.of_nat (seq 1 (Z.to_nat (m - 1))))).

(** The proleptic Gregorian ordinal of a date; 0001-01-01 is day 1. *)
Definition ymd2ord (y m d : Z) : Z :=
  days_before_year y + days_before_month y m + d.

(** The checks of the [datetime] constructor. *)
Definition valid_date (y m d : Z) : bool :=
  (1 <=? y) && (y <=? 9999) && (1 <=? m) && (m <=? 12)
  && (1 <=? d) && (d <=? days_in_month y m).

Definition valid_time (h mi s us : Z) : bool :=
  (0 <=? h) && (h <? 24) && (0 <=? mi) && (mi <? 60)
  && (0 <=? s) && (s <? 60) && (0 <=? us) && (us <? 1000000).

Definition ordinal (t : naive) : Z := ymd2ord (year t) (month t) (day t).

(** Microseconds since the midnight before day 1. *)
Definition micros (t : naive) : Z :=
  ((ordinal t * 86400 + hour t * 3600 + minute t * 60 + second t)
   * 1000000) + microsecond t.

(** [a - b] as a [timedelta] in microseconds; [None] is the
    [TypeError] of mixing a naive and an aware value. *)
Definition datetime_sub (a b : datetime) : option Z :=
  match utcoffset a, utcoffset b with
  | None, None => Some (micros (wall a) - micros (wall b))
  | Some oa, Some ob =>
      Some ((micros (wall a) - oa * 1000000)
            - (micros (wall b) - ob * 1000000))
  | _, _ => None
  end.
End Calendar.

(** [delta.total_seconds() / 3600]. *)
Definition hours_of_micros (us : Z) : Q :=
  (inject_Z us / 1000000 / 3600)%Q.

(** *** [datetime.fromisoformat]

    The spellings [YYYY-MM-DD] and [YYYY-MM-DD*HH:MM:SS], the latter with
    an optional fraction of three or six digits and an optional offset
    [+HH:MM] or [-HH:MM]; [*] is any one character.  [None] is
    [ValueError].  A string of the nineteen characters
    [YYYY-MM-DD*HH:MM:SS] has no other reading in any version of the
    interpreter. *)
Fixpoint take_digits (n : nat) (acc : Z) (s : str) : option (Z * str) :=
  match n with
  | O => Some (acc, s)
  | S n' =>
      match s with
      | c :: s' =>
          if ascii_digit c
          then take_digits n' (10 * acc + (Z.of_N c - 48))%Z s'
          else None
      | [] => None
      end
  end.

Definition expect (c : char) (s : str) : option str :=
  match s with
  | t :: s' => if (t =? c)%N then Some s' else None
  | [] => None
  end.

Definition iso_fraction (s : str) : option (Z * str) :=
  match s with
  | 46%N :: s' =>
      match take_digits 6 0 s' with
      | Some r => Some r
      | None =>
          match take_digits 3 0 s' with
          | Some (ms, s'') => Some ((ms * 1000)%Z, s'')
          | None => None
          end
      end
  | _ => Some (0%Z, s)
  end.

Definition iso_offset (s : str) : option (option Z) :=
  match s with
  | [] => Some None
  | sg :: s' =>
      if (sg =? 43)%N || (sg =? 45)%N then
        '(h, s1) ← take_digits 2 0 s';
        s2 ← expect 58 s1;
        '(m, s3) ← take_digits 2 0 s2;
        match s3 with
        | [] =>
            if (h <? 24)%Z && (m <? 60)%Z
            then Some (Some (if (sg =? 43)%N
                             then (h * 3600 + m * 60)%Z
                             else (- (h * 3600 + m * 60))%Z))
            else None
        | _ => None
        end
      else None
  end.

Definition fromisoformat (s : str) : option datetime :=
  '(y, s1) ← take_digits 4 0 s;
  s2 ← expect 45 s1;
  '(m, s3) ← take_digits 2 0 s2;
  s4 ← expect 45 s3;
  '(d, s5) ← take_digits 2 0 s4;
  if negb (valid_date y m d) then None else
  match s5 with
  | [] => Some (Datetime (Naive y m d 0 0 0 0) None)
  | _ :: s6 =>
      '(h, s7) ← take_digits 2 0 s6;
      s8 ← expect 58 s7;
      '(mi, s9) ← take_digits 2 0 s8;
      s10 ← expect 58 s9;
      '(sec, s11) ← take_digits 2 0 s10;
      '(us, s12) ← iso_fraction s11;
      off ← iso_offset s12;
      if valid_time h mi sec us
      then Some (Datetime (Naive y m d h mi sec us) off)
      else None
  end.

(** [s.replace('Z', '+00:00')]. *)
Definition replace_Z (s : str) : str :=
  flat_map (λ c, if (c =? 90)%N then py "+00:00" else [c]) s.

(** ** The time normalizer ([utils.py], time utilities) *)

Definition in_range (lo hi : char) (c : char) : bool :=
  ((lo <=? c) && (c <=? hi))%N.

Section TimeNormalizer.
Context `{Unicode}.

(** *** [datetime.strptime]

    The directives as [_strptime] compiles them; the format is matched
    at the front of the string with [re.IGNORECASE] and has to use up
    the string. *)

(** [%m] and [%I]: [1[0-2]|0[1-9]|[1-9]]. *)
Definition re_month : regex :=
  Alt (Cat (Chr 49) (Cls (in_range 48 50)))
      (Alt (Cat (Chr 48) (Cls (in_range 49 57))) (Cls (in_range 49 57))).

(** [%d]: [3[0-1]|[1-2]\d|0[1-9]|[1-9]| [1-9]]. *)
Definition re_day : regex :=
  Alt (Cat (Chr 51) (Cls (in_range 48 49)))
      (Alt (Cat (Cls (in_range 49 50)) (Cls is_decimal))
           (Alt (Cat (Chr 48) (Cls (in_range 49 57)))
                (Alt (Cls (in_range 49 57))
                     (Cat (Chr 32) (Cls (in_range 49 57)))))).

(** [%Y]: [\d\d\d\d]. *)
Definition re_year : regex :=
  Cat (Cls is_decimal)
      (Cat (Cls is_decimal) (Cat (Cls is_decimal) (Cls is_decimal))).

(** [%M]: [[0-5]\d|\d]. *)
Definition re_minute : regex :=
  Alt (Cat (Cls (in_range 48 53)) (Cls is_decimal)) (Cls is_decimal).

(** [%p] in the C locale: [am|pm]. *)
Definition re_ampm : regex := Alt (Str (py "am")) (Str (py "pm")).

(** [datetime.strptime(s, '%m<sep>%d<sep>%Y')], the date at midnight;
    [None] is [ValueError]. *)
Definition strptime_mdy (sep : char) (s : str) : option naive :=
  '(gm, gd, gy, rest) ←
    re_match true re_month s (λ s1,
    re_match true (Chr sep) s1 (λ s2,
    re_match true re_day s2 (λ s3,
    re_match true (Chr sep) s3 (λ s4,
    re_match true re_year s4 (λ s5,
      Some (consumed s s1, consumed s2 s3, consumed s4 s5, s5))))));
  match rest with
  | [] =>
      m ← int_of gm; d ← int_of gd; y ← int_of gy;
      if valid_date y m d then Some (Naive y m d 0 0 0 0) else None
  | _ => None
  end.

(** [datetime.strptime(s, '%I:%M %p')]: the hour and the minute of the
    result; a blank in a format stands for [\s+]. *)
Definition strptime_12h (s : str) : option (Z * Z) :=
  '(gi, gmin, gp, rest) ←
    re_match true re_month s (λ s1,
    re_match true (Chr 58) s1 (λ s2,
    re_match true re_minute s2 (λ s3,
    re_match true (Plus is_space) s3 (λ s4,
    re_match true re_ampm s4 (λ s5,
      Some (consumed s s1, consumed s2 s3, consumed s4 s5, s5))))));
  match rest with
  | [] =>
      i ← int_of gi; mi ← int_of gmin;
      let ampm := str_lower gp in
      let h :=
        if bool_decide (ampm = py "am")
        then (if (i =? 12)%Z then 0%Z else i)
        else if bool_decide (ampm = py "pm")
        then (if (i =? 12)%Z then i else (i + 12)%Z)
        else i in
      Some (h, mi)
  | _ => None
  end.

(** *** The converters *)

(** [parse_iso_timestamp]: every exception becomes [None]. *)
Definition parse_iso_timestamp (clk : clock) (timestamp_str : str)
    : option Q :=
  match fromisoformat (replace_Z timestamp_str) with
  | None => None
  | Some dt =>
      match datetime_sub (datetime_now_utc clk) dt with
      | None => None
      | Some diff => Some (hours_of_micros diff)
      end
  end.

(** [\s*[A-Z]{3,4}$], a trailing time zone abbreviation. *)
Definition re_tz_abbrev : regex :=
  Cat (Star is_space)
      (Cat (Cls ascii_upper)
           (Cat (Cls ascii_upper)
                (Cat (Cls ascii_upper) (Cat (Opt (Cls ascii_upper)) Eol)))).

(** [parse_time_today]: the clock time is taken to be of today, or of
    yesterday when that lies ahead of now.  There is no day before
    0001-01-01: the subtraction raises there, and every exception
    becomes [None]. *)
Definition parse_time_today (clk : clock) (time_str : str) : option Q :=
  let clean_time := re_sub false re_tz_abbrev [] (strip time_str) in
  match strptime_12h clean_time with
  | None => None
  | Some (h, mi) =>
      let now := local_now clk in
      let today_with_parsed_time :=
        Naive (year now) (month now) (day now) h mi 0 0 in
      if (micros now <? micros today_with_parsed_time)%Z
      then
        if (ordinal now <=? 1)%Z then None
        else Some (hours_of_micros
                     (micros now
                      - (micros today_with_parsed_time - 86400000000))%Z)
      else Some (hours_of_micros
                   (micros now - micros today_with_parsed_time)%Z)
  end.

(** [parse_date_format]: every exception becomes [None]. *)
Definition parse_date_format (clk : clock) (date_str : str)
    (separator : char) : option Q :=
  match strptime_mdy (if (separator =? 47)%N then 47%N else 45%N)
          date_str with
  | None => None
  | Some date_obj =>
      Some (hours_of_micros (micros (local_now clk) - micros date_obj)%Z)
  end.

(** *** The pattern table of [parse_relative_time] *)

(** What a converter does with group 1: [None] is a [ValueError] or
    [TypeError], after which the next pattern is tried; [Some r] is the
    value returned, [r = None] being Python's [None]. *)
Definition converter : Type := clock → str → option (option Q).

(** [lambda x: f(int(x))]. *)
Definition of_int (f : Q → Q) : converter :=
  λ _ x, n ← int_of x; Some (Some (f (inject_Z n))).

(** [\s*<unit>s?\s+ago] behind the group [(\d+)]. *)
Definition ago (unit : string) : regex :=
  Cat (Star is_space)
      (Cat (Str (py unit))
           (Cat (Opt (Chr 115)) (Cat (Plus is_space) (Str (py "ago"))))).

(** The Hindi words: घंटे (hours), मिनट (minutes), दिन (days) and
    पहले (ago). *)
Definition ghante : str := [2328; 2306; 2335; 2375]%N.
Definition minat : str := [2350; 2367; 2344; 2335]%N.
Definition din : str := [2342; 2367; 2344]%N.
Definition pahle : str := [2346; 2361; 2354; 2375]%N.

(** [\s*<unit>\s+पहले] behind the group [(\d+)]. *)
Definition pahle_re (unit : str) : regex :=
  Cat (Star is_space) (Cat (Str unit) (Cat (Plus is_space) (Str pahle))).

Definition dig : regex := Cls is_decimal.

(** [\d{4}-\d{2}-\d{2}T\d{2}:\d{2}:\d{2}]. *)
Definition re_iso : regex :=
  Cat dig (Cat dig (Cat dig (Cat dig (Cat (Chr 45)
  (Cat dig (Cat dig (Cat (Chr 45)
  (Cat dig (Cat dig (Cat (Chr 84)
  (Cat dig (Cat dig (Cat (Chr 58)
  (Cat dig (Cat dig (Cat (Chr 58) (Cat dig dig))))))))))))))))).

(** [\d{1,2}:\d{2}\s*(AM|PM)]. *)
Definition re_clock : regex :=
  Cat dig (Cat (Opt dig) (Cat (Chr 58) (Cat dig (Cat dig
  (Cat (Star is_space) (Alt (Str (py "AM")) (Str (py "PM")))))))).

(** [\d{1,2}<sep>\d{1,2}<sep>\d{4}]. *)
Definition re_date (sep : char) : regex :=
  Cat dig (Cat (Opt dig) (Cat (Chr sep) (Cat dig (Cat (Opt dig) (Cat (Chr sep)
  (Cat dig (Cat dig (Cat dig dig)))))))).

(** Each entry: the group [(g)], the rest of the pattern, the
    converter. *)
Definition patterns : list (regex * regex * converter) :=
  [ (Plus is_decimal, ago "second", of_int (λ x, x / 3600)%Q);
    (Plus is_decimal, ago "min", of_int (λ x, x / 60)%Q);
    (Plus is_decimal, ago "minute", of_int (λ x, x / 60)%Q);
    (Plus is_decimal, ago "hr", of_int (λ x, x));
    (Plus is_decimal, ago "hour", of_int (λ x, x));
    (Plus is_decimal, ago "day", of_int (λ x, x * 24)%Q);
    (Plus is_decimal, ago "week", of_int (λ x, x * 24 * 7)%Q);
    (Plus is_decimal, ago "month", of_int (λ x, x * 24 * 30)%Q);
    (Plus is_decimal, pahle_re ghante, of_int (λ x, x));
    (Plus is_decimal, pahle_re minat, of_int (λ x, x / 60)%Q);
    (Plus is_decimal, pahle_re din, of_int (λ x, x * 24)%Q);
    (re_iso, Eps, λ clk x, Some (parse_iso_timestamp clk x));
    (re_clock, Eps, λ clk x, Some (parse_time_today clk x));
    (re_date 47, Eps, λ clk x, Some (parse_date_format clk x 47));
    (re_date 45, Eps, λ clk x, Some (parse_date_format clk x 45)) ].

(** The loop over the patterns: the first pattern found in the text
    whose converter does not raise decides; [None] when the loop runs to
    its end. *)
Fixpoint first_conversion (clk : clock)
    (pats : list (regex * regex * converter)) (text : str)
    : option (option Q) :=
  match pats with
  | [] => None
  | (g, rest, conv) :: pats' =>
      match re_search1 true g rest text with
      | Some x =>
          match conv clk x with
          | Some r => Some r
          | None => first_conversion clk pats' text
          end
      | None => first_conversion clk pats' text
      end
  end.

(** The phrases, in the order of the dictionary. *)
Definition special_cases : list (str * Q) :=
  [ (py "just now", 0); (py "a moment ago", 0); (py "few seconds ago", 0);
    (py "a minute ago", 1 / 60); (py "an hour ago", 1); (py "today", 0);
    (py "this morning", 6); (py "this afternoon", 3);
    (py "this evening", 1); (py "yesterday", 24); (py "a day ago", 24);
    (py "last night", 12); (py "this week", 24 * 3);
    (py "last week", 24 * 7); (py "a week ago", 24 * 7) ]%Q.

Fixpoint first_phrase (cases : list (str * Q)) (text : str) : option Q :=
  match cases with
  | [] => None
  | (phrase, hours) :: cases' =>
      if contains phrase text then Some hours
      else first_phrase cases' text
  end.

(** [parse_relative_time]: the age in hours, or [None]. *)
Definition parse_relative_time (clk : clock) (timestamp_text : option str)
    : option Q :=
  match timestamp_text with
  | None | Some [] => None
  | Some t =>
      let text := strip (str_lower t) in
      match first_conversion clk patterns text with
      | Some r => r
      | None => first_phrase special_cases text
      end
  end.

(** *** The timeframe filter *)

(** The [hours] argument as the interpreter sees it: any object. *)
Inductive pyval : Type :=
  | PyNone
  | PyNum (q : Q)
  | PyStr (s : str).

(** [v + 1]; [None] is [TypeError]. *)
Definition py_add_one (v : pyval) : option Q :=
  match v with
  | PyNum q => Some (q + 1)%Q
  | PyNone | PyStr _ => None
  end.

(** The body of the [try] of [is_within_timeframe]: [inr tt] stands for
    an exception raised inside it. *)
Definition within_timeframe_body (clk : clock) (timestamp_text : option str)
    (hours : pyval) : bool + unit :=
  match parse_relative_time clk timestamp_text with
  | None => inl true
  | Some parsed_hours =>
      match py_add_one hours with
      | Some bound => inl (Qle_bool parsed_hours bound)
      | None => inr tt
      end
  end.

(** [is_within_timeframe]. *)
Definition is_within_timeframe (clk : clock) (timestamp_text : option str)
    (hours : pyval) : bool :=
  match timestamp_text with
  | None | Some [] => true
  | Some _ =>
      match within_timeframe_body clk timestamp_text hours with
      | inl b => b
      | inr _ => true
      end
  end.

End TimeNormalizer.

(** ** Article records *)

(** What a collector hands on: a dictionary from field names to strings,
    or some other object. *)
Inductive article : Type :=
  | NotDict
  | Dict (fields : gmap string (list N)).

(** The record [{'headline': h, 'link': l}]. *)
Definition mk_article (headline link : str) : article :=
  Dict (<["headline" := headline]> (<["link" := link]> ∅)).

Section Pipeline.
Context `{Unicode}.

(** *** The validator *)

Definition spam_indicators : list str :=
  [ py "click here"; py "free download"; py "limited time"; py "!!!" ].

(** [field not in article or not article[field]]. *)
Definition missing_or_empty (fields : gmap string (list N))
    (field : string) : bool :=
  match fields !! field with
  | None | Some [] => true
  | Some _ => false
  end.

(** [article.get(field, '')]. *)
Definition get_field (fields : gmap string (list N)) (field : string)
    : str :=
  default [] (fields !! field).

(** [validate_article]. *)
Definition validate_article (a : article) : bool :=
  match a with
  | NotDict => false
  | Dict fields =>
      if existsb (missing_or_empty fields) ["headline"; "link"]%string
      then false
      else
        let url := get_field fields "link" in
        if negb (startswith (py "http://") url
                 || startswith (py "https://") url)
        then false
        else
          let headline := get_field fields "headline" in
          if (length (strip headline) <? 5)%nat then false
          else
            let headline_lower := str_lower headline in
            if existsb (λ indicator, contains indicator headline_lower)
                 spam_indicators
            then false
            else true
  end.

(** *** The deduplicator *)

(** [^\[.*?\]\s*] without the anchor. *)
Definition re_category_tag : regex :=
  Cat (Chr 91) (Cat (Lazy dot) (Cat (Chr 93) (Star is_space))).

(** [\s*\|\s*.*$]. *)
Definition re_site_suffix : regex :=
  Cat (Star is_space)
      (Cat (Chr 124) (Cat (Star is_space) (Cat (Star dot) Eol))).

(** [[^\w\s]]. *)
Definition re_punctuation : regex :=
  Cls (λ c, negb (is_word c || is_space c)).

Definition normalize_title (title : str) : str :=
  let title := re_sub_prefix false re_category_tag title in
  let title := re_sub false re_site_suffix [] title in
  let title := re_sub false re_punctuation [] (str_lower title) in
  strip (re_sub false (Plus is_space) (py " ") title).

(** [[?#].*$]. *)
Definition re_query : regex :=
  Cat (Cls (λ c, (c =? 63)%N || (c =? 35)%N)) (Cat (Star dot) Eol).

Definition normalize_url (url : str) : str :=
  let url := re_sub false re_query [] url in
  let url := rstrip_char 47 url in
  str_lower url.

(** The body of the inner loop: the share of common words of two
    normalized titles exceeds 0.8. *)
Definition similar (title seen_title : str) : bool :=
  let title_words : gset (list N) := list_to_set (split_ws title) in
  let seen_words : gset (list N) := list_to_set (split_ws seen_title) in
  if (0 <? size title_words)%nat && (0 <? size seen_words)%nat then
    let intersection := size (title_words ∩ seen_words) in
    let union := size (title_words ∪ seen_words) in
    let similarity :=
      if (0 <? union)%nat
      then (inject_Z (Z.of_nat intersection) / inject_Z (Z.of_nat union))%Q
      else 0%Q in
    negb (Qle_bool similarity (8 # 10))
  else false.

(** The state of the loop of [deduplicate_articles]. *)
Record dedup_state : Type := DedupState {
  seen_urls : gset (list N);
  seen_titles : gset (list N);
  unique_articles : list article;
}.

Definition dedup_init : dedup_state := DedupState ∅ ∅ [].

(** One turn of the loop. *)
Definition dedup_step (st : dedup_state) (a : article) : dedup_state :=
  if negb (validate_article a) then st
  else
    match a with
    | NotDict => st
    | Dict fields =>
        let url := normalize_url (get_field fields "link") in
        let title := normalize_title (get_field fields "headline") in
        if bool_decide (url ∈ seen_urls st) then st
        else
          let title_is_duplicate :=
            existsb (similar title) (elements (seen_titles st)) in
          if title_is_duplicate then st
          else
            DedupState ({[url]} ∪ seen_urls st)
                       ({[title]} ∪ seen_titles st)
                       (unique_articles st ++ [a])
    end.

(** [deduplicate_articles]. *)
Definition deduplicate_articles (articles : list article) : list article :=
  match articles with
  | [] => []
  | _ => unique_articles (foldl dedup_step dedup_init articles)
  end.

End Pipeline.

(** ** The collection run ([app.py])

    Source names, dictionary keys and messages are Rocq strings.  The
    collectors, the spreadsheet writer and the clock are collaborators:
    what each call does is given by the environment.  [socketio.emit]
    does not raise, so the handler of the outer [try] is never entered;
    of the events sent, the final [scraping_complete] is kept. *)

Inductive outcome (A : Type) : Type :=
  | Returns (a : A)
  | Raises (msg : string).
Arguments Returns {A} a.
Arguments Raises {A} msg.

(** The process-wide [scraping_state] dictionary ([start_time], read
    only for the duration shown at the end, is left out). *)
Record scraping_state : Type := ScrapingState {
  running : bool;
  progress : Z;
  current_source : string;
  results : gmap string (list article);
  total_articles : nat;
  errors : list string;
  last_excel_path : option string;
}.

(** The payload of the [scraping_complete] event. *)
Record complete_event : Type := CompleteEvent {
  success : bool;
  ev_total_articles : nat;
  ev_errors : list string;
  excel_available : bool;
}.

Inductive collector : Type :=
  | Singapore | Japan | India | Korea | YahooFinance | Others.

#[export] Instance collector_eq_dec : EqDecision collector.
Proof. solve_decision. Defined.

(** The key of the group, which is also the prefix of the messages. *)
Definition source_name (c : collector) : string :=
  match c with
  | Singapore => "Singapore"
  | Japan => "Japan"
  | India => "India"
  | Korea => "Korea"
  | YahooFinance => "Yahoo Finance"
  | Others => "Others"
  end.

(** The percentages emitted before and after each collector. *)
Definition progress_before (c : collector) : Z :=
  match c with
  | Singapore => 10 | Japan => 30 | India => 50
  | Korea => 70 | YahooFinance => 85 | Others => 95
  end.

Definition progress_after (c : collector) : Z :=
  match c with
  | Singapore => 20 | Japan => 40 | India => 60
  | Korea => 80 | YahooFinance => 90 | Others => 98
  end.

Definition collecting_message (c : collector) : string :=
  match c with
  | Others => "Collecting international news..."
  | _ => "Collecting " +:+ source_name c +:+ " news..."
  end.

(** The collaborators of one run. *)
Record collaborators : Type := Collaborators {
  (** [get_collection_hours()] *)
  collection_hours : Z;
  (** [singapore.fetch_all()], [japan.fetch_articles()], ... for the
      five collectors of one group each *)
  fetch : collector → outcome (list article);
  (** [others.fetch_all_others(hours, target_dates)] *)
  fetch_all_others : outcome (gmap string (list article));
  (** [create_excel_file(news_by_source, hours)] *)
  create_excel_file :
    gmap string (list article) → Z → outcome (bool * string);
}.

(** [sum(len(articles) for articles in d.values())]. *)
Definition count_articles (d : gmap string (list article)) : nat :=
  map_fold (λ _ articles n, (length articles + n)%nat) 0%nat d.

(** [emit_progress]; [source_results] is [None] when the argument is
    left out. *)
Definition emit_progress (p : Z) (message : string)
    (source_results : option (gmap string (list article)))
    (st : scraping_state) : scraping_state :=
  let res :=
    match source_results with
    | Some sr => if bool_decide (sr = ∅) then results st else sr ∪ results st
    | None => results st
    end in
  let total :=
    match source_results with
    | Some sr =>
        if bool_decide (sr = ∅) then total_articles st
        else count_articles res
    | None => total_articles st
    end in
  ScrapingState (running st) p message res total (errors st)
    (last_excel_path st).

Definition add_error (e : string) (st : scraping_state) : scraping_state :=
  ScrapingState (running st) (progress st) (current_source st) (results st)
    (total_articles st) (errors st ++ [e]) (last_excel_path st).

Definition set_running (b : bool) (st : scraping_state) : scraping_state :=
  ScrapingState b (progress st) (current_source st) (results st)
    (total_articles st) (errors st) (last_excel_path st).

Definition set_last_excel_path (path : string) (st : scraping_state)
    : scraping_state :=
  ScrapingState (running st) (progress st) (current_source st) (results st)
    (total_articles st) (errors st) (Some path).

(** Where the worker stands in [run_scraping_task].  A collector's block
    is entered ([Begin]: the announcement is emitted and the call is
    under way) and left ([Finish]: the call has returned or raised and
    the block has dealt with it). *)
Inductive position : Type :=
  | Init
  | Begin (c : collector)
  | Finish (c : collector)
  | Excel
  | Finally
  | Done.

(** The worker: its position, the shared state, its local
    [news_by_source], the collectors called so far, the mapping handed to
    the spreadsheet writer and the final event. *)
Record worker : Type := Worker {
  pos : position;
  state : scraping_state;
  news_by_source : gmap string (list article);
  invoked : list collector;
  written : option (gmap string (list article));
  completed : option complete_event;
}.

Definition after_collector (c : collector) : position :=
  match c with
  | Singapore => Begin Japan
  | Japan => Begin India
  | India => Begin Korea
  | Korea => Begin YahooFinance
  | YahooFinance => Begin Others
  | Others => Excel
  end.

(** The [try] block of a collector once its call is over. *)
Definition finish_collector (env : collaborators) (c : collector)
    (news : gmap string (list article)) (st : scraping_state)
    : gmap string (list article) * scraping_state :=
  match c with
  | Others =>
      match fetch_all_others env with
      | Returns other_sources =>
          (other_sources ∪ news,
           emit_progress (progress_after c)
             ("International sources: "
              +:+ pretty (count_articles other_sources)
              +:+ " articles collected")
             (Some other_sources) st)
      | Raises e => (news, add_error ("Others: " +:+ e) st)
      end
  | _ =>
      match fetch env c with
      | Returns articles =>
          (<[source_name c := articles]> news,
           emit_progress (progress_after c)
             (source_name c +:+ ": " +:+ pretty (length articles)
              +:+ " articles collected")
             (Some {[source_name c := articles]}) st)
      | Raises e =>
          (<[source_name c := []]> news,
           emit_progress (progress_after c)
             (source_name c +:+ ": Failed to collect articles") None
             (add_error (source_name c +:+ ": " +:+ e) st))
      end
  end.

(** The spreadsheet block. *)
Definition generate_excel (env : collaborators)
    (news : gmap string (list article)) (st : scraping_state)
    : scraping_state :=
  let st := emit_progress 99 "Generating Excel file..." None st in
  match create_excel_file env news (collection_hours env) with
  | Returns (true, excel_path) =>
      emit_progress 100 "Collection completed successfully!" None
        (set_last_excel_path excel_path st)
  | Returns (false, _) =>
      add_error "Excel generation failed"
        (emit_progress 100
           "Collection completed with Excel generation error" None st)
  | Raises e =>
      emit_progress 100 "Collection completed with Excel generation error"
        None (add_error ("Excel generation: " +:+ e) st)
  end.

(** One step of the worker. *)
Definition task_step (env : collaborators) (w : worker) : worker :=
  match pos w with
  | Init =>
      let st := state w in
      let st :=
        ScrapingState true (progress st) (current_source st) ∅ 0 []
          (last_excel_path st) in
      Worker (Begin Singapore)
        (emit_progress 0 "Initializing scrapers..." None st)
        ∅ [] None None
  | Begin c =>
      Worker (Finish c)
        (emit_progress (progress_before c) (collecting_message c) None
           (state w))
        (news_by_source w) (invoked w ++ [c]) (written w) (completed w)
  | Finish c =>
      let r := finish_collector env c (news_by_source w) (state w) in
      Worker (after_collector c) (snd r) (fst r) (invoked w) (written w)
        (completed w)
  | Excel =>
      Worker Finally
        (generate_excel env (news_by_source w) (state w))
        (news_by_source w) (invoked w) (Some (news_by_source w))
        (completed w)
  | Finally =>
      let st := set_running false (state w) in
      Worker Done st (news_by_source w) (invoked w) (written w)
        (Some (CompleteEvent
                 (bool_decide (errors st = []))
                 (total_articles st) (errors st)
                 (bool_decide (last_excel_path st ≠ None))))
  | Done => w
  end.

(** [run_scraping_task] left alone: fifteen steps from [Init]. *)
Definition start_worker (st : scraping_state) : worker :=
  Worker Init st ∅ [] None None.

Definition run_scraping_task (env : collaborators) (st : scraping_state)
    : worker :=
  Nat.iter 15 (task_step env) (start_worker st).

(** [api_stop_scraping]: the response code and the state it leaves. *)
Definition api_stop_scraping (st : scraping_state) : Z * scraping_state :=
  if negb (running st) then (400%Z, st)
  else
    let st := set_running false st in
    (200%Z, emit_progress (progress st) "Stopping collection..." None st).

(** The worker and the request handler share the state; a schedule says
    in which order worker steps and stop requests take place. *)
Inductive event : Type :=
  | Step
  | StopRequest.

Definition sys_step (env : collaborators) (w : worker) (e : event)
    : worker :=
  match e with
  | Step => task_step env w
  | StopRequest =>
      Worker (pos w) (snd (api_stop_scraping (state w)))
        (news_by_source w) (invoked w) (written w) (completed w)
  end.

Definition run_schedule (env : collaborators) (sched : list event)
    (w : worker) : worker :=
  foldl (sys_step env) w sched.

(** ** The deduplicator in the words of the specification

    Two keys per article, and a walk that keeps an article unless one of
    the two keys ties it to an article kept before. *)
Section DedupSpec.
Context `{Unicode}.

Definition link_of (a : article) : str :=
  match a with
  | Dict fields => get_field fields "link"
  | NotDict => []
  end.

Definition headline_of (a : article) : str :=
  match a with
  | Dict fields => get_field fields "headline"
  | NotDict => []
  end.

Definition url_key (a : article) : str := normalize_url (link_of a).

Definition headline_key (a : article) : str :=
  normalize_title (headline_of a).

(** Jaccard similarity of the word sets of two strings; 0 when neither
    has a word. *)
Definition jaccard (x y : str) : Q :=
  let a : gset (list N) := list_to_set (split_ws x) in
  let b : gset (list N) := list_to_set (split_ws y) in
  if (size (a ∪ b) =? 0)%nat then 0%Q
  else (inject_Z (Z.of_nat (size (a ∩ b)))
        / inject_Z (Z.of_nat (size (a ∪ b))))%Q.

Definition duplicate_of (a b : article) : bool :=
  bool_decide (url_key a = url_key b)
  || negb (Qle_bool (jaccard (headline_key a) (headline_key b)) (8 # 10)).

(** [kept] holds the articles kept so far, oldest first. *)
Fixpoint first_seen (kept : list article) (xs : list article)
    : list article :=
  match xs with
  | [] => []
  | a :: xs' =>
      if existsb (duplicate_of a) kept
      then first_seen kept xs'
      else a :: first_seen (kept ++ [a]) xs'
  end.

(** What the loop of [deduplicate_articles] maintains: its state holds
    the kept articles and their keys. *)
Definition tracks (kept : list article) (st : dedup_state) : Prop :=
  unique_articles st = kept
  ∧ seen_urls st = list_to_set (url_key <$> kept)
  ∧ seen_titles st = list_to_set (headline_key <$> kept).

End DedupSpec.

(** ** Relative phrases in the words of the specification *)

(** The number a string of digits 0-9 denotes. *)
Definition digits_value (ds : str) : Z :=
  fold_left (λ acc c, (10 * acc + (Z.of_N c - 48))%Z) ds 0%Z.

(** The unit words, the word for "ago" that follows them and the hours
    one unit stands for. *)
Definition relative_units : list (str * str * Q) :=
  [ (py "second", py "ago", 1 / 3600); (py "seconds", py "ago", 1 / 3600);
    (py "minute", py "ago", 1 / 60); (py "minutes", py "ago", 1 / 60);
    (py "hour", py "ago", 1); (py "hours", py "ago", 1);
    (py "day", py "ago", 24); (py "days", py "ago", 24);
    (py "week", py "ago", 168); (py "weeks", py "ago", 168);
    (py "month", py "ago", 720); (py "months", py "ago", 720);
    (ghante, pahle, 1); (minat, pahle, 1 / 60); (din, pahle, 24) ]%Q.

(** The collectors in the order of the run, and those called once the
    worker stands at a position. *)
Definition all_collectors : list collector :=
  [Singapore; Japan; India; Korea; YahooFinance; Others].

Definition invoked_at (p : position) : list collector :=
  match p with
  | Init | Begin Singapore => []
  | Finish Singapore | Begin Japan => [Singapore]
  | Finish Japan | Begin India => [Singapore; Japan]
  | Finish India | Begin Korea => [Singapore; Japan; India]
  | Finish Korea | Begin YahooFinance => [Singapore; Japan; India; Korea]
  | Finish YahooFinance | Begin Others =>
      [Singapore; Japan; India; Korea; YahooFinance]
  | Finish Others | Excel | Finally | Done => all_collectors
  end.

(** The state of a process that has not run yet. *)
Definition idle_state : scraping_state :=
  ScrapingState false 0 "" ∅ 0 [] None.

(** Collaborators for the closed examples: every collector finds one
    article, except [failing], which raises; the writer succeeds. *)
Definition sample_article : article :=
  mk_article (py "Budget update") (py "http://a.com/1").

Definition sample_env (failing : collector) : collaborators :=
  Collaborators 24
    (λ c, if bool_decide (c = failing) then Raises "timeout"
          else Returns [sample_article])
    (if bool_decide (failing = Others) then Raises "timeout"
     else Returns {["TradeWinds" := [sample_article]]})
    (λ _ _, Returns (true, "daily_news.xlsx")).

(** A schedule with a stop request while the Japan collector is at
    work. *)
Definition stop_during_japan : list event :=
  [Step; Step; Step; Step; StopRequest]
  ++ replicate 11 Step.

(** A clock for the closed examples: local noon of 15 June 2024, four
    in the morning in UTC. *)
Definition sample_clock : clock :=
  Clock (Naive 2024 6 15 12 0 0 0) (Naive 2024 6 15 4 0 0 0).

(** The numeric patterns of [patterns] as data: the unit word, whether
    [s?] follows it, the word for "ago", and the conversion. *)
Definition numeric_rules : list (str * bool * str * (Q → Q)) :=
  [ (py "second", true, py "ago", λ x, x / 3600);
    (py "min", true, py "ago", λ x, x / 60);
    (py "minute", true, py "ago", λ x, x / 60);
    (py "hr", true, py "ago", λ x, x);
    (py "hour", true, py "ago", λ x, x);
    (py "day", true, py "ago", λ x, x * 24);
    (py "week", true, py "ago", λ x, x * 24 * 7);
    (py "month", true, py "ago", λ x, x * 24 * 30);
    (ghante, false, pahle, λ x, x);
    (minat, false, pahle, λ x, x / 60);
    (din, false, pahle, λ x, x * 24) ]%Q.

(** The part of a numeric pattern behind the group. *)
Definition rule_rest (lit : str) (opt_s : bool) (tl : str) : regex :=
  Cat (Star is_space)
      (Cat (Str lit)
           (if opt_s
            then Cat (Opt (Chr 115)) (Cat (Plus is_space) (Str tl))
            else Cat (Plus is_space) (Str tl))).

Definition rule_pattern `{Unicode} (r : str * bool * str * (Q → Q))
    : regex * regex * converter :=
  (Plus is_decimal, rule_rest r.1.1.1 r.1.1.2 r.1.2, of_int r.2).

(** The later patterns of [patterns]. *)
Definition absolute_patterns `{Unicode} : list (regex * regex * converter) :=
  [ (re_iso, Eps, λ clk x, Some (parse_iso_timestamp clk x));
    (re_clock, Eps, λ clk x, Some (parse_time_today clk x));
    (re_date 47, Eps, λ clk x, Some (parse_date_format clk x 47));
    (re_date 45, Eps, λ clk x, Some (parse_date_format clk x 45)) ].

(** A character of a unit word: plain, no white space, no digit. *)
Definition word_char (c : char) : bool :=
  plain c && negb (is_space c) && negb (ascii_digit c).

(** Whether the rest of a numeric pattern takes [unit], white space and
    [tl]: the unit is the word of the pattern, with an s behind it where
    the pattern allows one, and the word for "ago" is the pattern's. *)
Definition rule_accepts (lit : str) (opt_s : bool) (tl_j : str)
    (unit tl : str) : bool :=
  startswith lit unit
  && match drop (length lit) unit with
     | [] => true
     | [c] => opt_s && (c =? 115)%N
     | _ => false
     end
  && startswith tl_j tl.

(** A unit word or a word for "ago": not empty, word characters only. *)
Definition is_word_str (s : str) : bool :=
  match s with
  | [] => false
  | _ => forallb word_char s
  end.

(** ** More of [utils.py] and [app.py] *)

(** [api_start_scraping]: the response code.  With 200 a worker thread
    is started; the flag is raised by the worker, in its first step. *)
Definition api_start_scraping (st : scraping_state) : Z :=
  if running st then 400%Z else 200%Z.

(** Whether a call of a collaborator raised. *)
Definition raised {A : Type} (o : outcome A) : bool :=
  match o with
  | Raises _ => true
  | Returns _ => false
  end.

(** The position after a step of the worker. *)
Definition next_position (p : position) : position :=
  match p with
  | Init => Begin Singapore
  | Begin c => Finish c
  | Finish c => after_collector c
  | Excel => Finally
  | Finally | Done => Done
  end.

(** [s[:n]] for an integer [n]: a negative [n] counts from the end. *)
Definition slice_to (n : Z) (s : str) : str :=
  if (0 <=? n)%Z then take (Z.to_nat n) s
  else take (length s - Z.to_nat (- n)) s.

(** [s.rfind(c)] for a character [c]: the last index of [c], or -1. *)
Fixpoint rfind_from (c : char) (i : Z) (last : Z) (s : str) : Z :=
  match s with
  | [] => last
  | x :: s' => rfind_from c (i + 1) (if (x =? c)%N then i else last) s'
  end.

Definition rfind (c : char) (s : str) : Z := rfind_from c 0 (-1) s.

(** [truncate_text(text, max_length, ellipsis)]. *)
Definition truncate_text (text : str) (max_length : Z) (ellipsis : str)
    : str :=
  match text with
  | [] => text
  | _ =>
      if (Z.of_nat (length text) <=? max_length)%Z then text
      else
        let truncated :=
          slice_to (max_length - Z.of_nat (length ellipsis)) text in
        let last_space := rfind 32 truncated in
        let truncated :=
          if Qle_bool (inject_Z last_space) (inject_Z max_length * (8 # 10))
          then truncated
          else slice_to last_space truncated in
        truncated ++ ellipsis
  end.

(** [s.strip(chars)]: [p] tells the characters of [chars]. *)
Fixpoint lstrip_by (p : char → bool) (s : str) : str :=
  match s with
  | c :: s' => if p c then lstrip_by p s' else s
  | [] => []
  end.

Definition strip_by (p : char → bool) (s : str) : str :=
  rev (lstrip_by p (rev (lstrip_by p s))).

(** The class of [sanitize_filename]: less-than, greater-than, colon,
    double quote, slash, backslash, bar, question mark, asterisk. *)
Definition invalid_char (c : char) : bool :=
  existsb (N.eqb c) [60; 62; 58; 34; 47; 92; 124; 63; 42]%N.

Section MoreUtils.
Context `{Unicode}.

(** [sanitize_filename]. *)
Definition sanitize_filename (filename : str) : str :=
  match filename with
  | [] => py "untitled"
  | _ =>
      let sanitized := re_sub false (Cls invalid_char) (py "_") filename in
      let sanitized :=
        strip_by (λ c, (c =? 32)%N || (c =? 46)%N) sanitized in
      let sanitized :=
        if (255 <? length sanitized)%nat then take 255 sanitized
        else sanitized in
      match sanitized with
      | [] => py "untitled"
      | _ => sanitized
      end
  end.

(** [normalize_whitespace]. *)
Definition normalize_whitespace (text : str) : str :=
  match text with
  | [] => []
  | _ => strip (re_sub false (Plus is_space) (py " ") text)
  end.

(** [filter_articles_by_timeframe]; [None] is the [AttributeError] of
    calling [get] on a record that is no dictionary. *)
Fixpoint filter_articles_by_timeframe (clk : clock)
    (articles : list article) (hours : pyval) : option (list article) :=
  match articles with
  | [] => Some []
  | NotDict :: _ => None
  | Dict fields :: rest =>
      let timestamp := get_field fields "timestamp" in
      filtered ← filter_articles_by_timeframe clk rest hours;
      Some (if is_within_timeframe clk (Some timestamp) hours
            then Dict fields :: filtered
            else filtered)
  end.

End MoreUtils.

(** ** The validator and the deduplicator of [scrapers/others.py] *)
Module Others.
Section Others.
Context `{Unicode}.

(** [validate_article_data]. *)
Definition validate_article_data (a : article) : bool :=
  match a with
  | NotDict => false
  | Dict fields =>
      if existsb (missing_or_empty fields) ["site"; "headline"; "link"]%string
      then false
      else
        let link := get_field fields "link" in
        if negb (startswith (py "http://") link
                 || startswith (py "https://") link)
        then false
        else
          let headline := get_field fields "headline" in
          if (length (strip headline) <? 5)%nat
             || (500 <? length (strip headline))%nat
          then false
          else true
  end.

(** The two keys of the loop. *)
Definition url_of (a : article) : str :=
  strip (str_lower (link_of a)).

Definition normalized_headline (a : article) : str :=
  re_sub false re_punctuation [] (strip (str_lower (headline_of a))).

Record state : Type := State {
  seen_urls : gset (list N);
  seen_headlines : gset (list N);
  unique_articles : list article;
}.

(** One turn of the loop. *)
Definition step (st : state) (a : article) : state :=
  if negb (validate_article_data a) then st
  else
    let url := url_of a in
    let normalized_headline := normalized_headline a in
    if negb (bool_decide (url ∈ seen_urls st))
       && negb (bool_decide (normalized_headline ∈ seen_headlines st))
    then State ({[url]} ∪ seen_urls st)
               ({[normalized_headline]} ∪ seen_headlines st)
               (unique_articles st ++ [a])
    else st.

(** [deduplicate_articles] of [scrapers/others.py]. *)
Definition deduplicate_articles (articles : list article) : list article :=
  match articles with
  | [] => []
  | _ => unique_articles (foldl step (State ∅ ∅ []) articles)
  end.

End Others.
End Others.

(** ** Helpers for the properties of the further code *)

(** The class [[?#]] of the URL pattern. *)
Definition query_mark (c : char) : bool := (c =? 63)%N || (c =? 35)%N.

(** [article.get('timestamp', '')]. *)
Definition timestamp_of (a : article) : str :=
  match a with
  | Dict fields => get_field fields "timestamp"
  | NotDict => []
  end.

(** What the handler of a collector's block appends to the error list. *)
Definition collector_error (env : collaborators) (c : collector)
    : list string :=
  match c with
  | Others =>
      match fetch_all_others env with
      | Raises e => ["Others: " +:+ e]
      | Returns _ => []
      end
  | _ =>
      match fetch env c with
      | Raises e => [source_name c +:+ ": " +:+ e]
      | Returns _ => []
      end
  end.

(** What the spreadsheet block appends to the error list. *)
Definition excel_error (env : collaborators)
    (news : gmap string (list article)) : list string :=
  match create_excel_file env news (collection_hours env) with
  | Returns (true, _) => []
  | Returns (false, _) => ["Excel generation failed"]
  | Raises e => ["Excel generation: " +:+ e]
  end.

(** The block of a collector: the announcement, then the call and what
    the block makes of it. *)
Definition collector_block (env : collaborators)
    (r : gmap string (list article) * scraping_state) (c : collector)
    : gmap string (list article) * scraping_state :=
  finish_collector env c (fst r)
    (emit_progress (progress_before c) (collecting_message c) None (snd r)).

(** The six blocks of a run in one piece: the mapping and the state they
    leave. *)
Definition collect_all (env : collaborators) (st : scraping_state)
    : gmap string (list article) * scraping_state :=
  foldl (collector_block env)
    (∅, emit_progress 0 "Initializing scrapers..." None
          (ScrapingState true (progress st) (current_source st) ∅ 0 []
             (last_excel_path st)))
    all_collectors.

Section OthersSpec.
Context `{Unicode}.

(** What the loop of the deduplicator of [scrapers/others.py]
    maintains: its state holds the kept articles and their keys. *)
Definition keeps (kept : list article) (st : Others.state) : Prop :=
  Others.unique_articles st = kept
  ∧ Others.seen_urls st = list_to_set (Others.url_of <$> kept)
  ∧ Others.seen_headlines st
    = list_to_set (Others.normalized_headline <$> kept).

(** Two articles with the same URL key or the same headline key. *)
Definition same_story (a b : article) : bool :=
  bool_decide (Others.url_of a = Others.url_of b)
  || bool_decide (Others.normalized_headline a
                  = Others.normalized_headline b).

End OthersSpec.

(** [' '.join(words)]. *)
Fixpoint join_blank (words : list str) : str :=
  match words with
  | [] => []
  | w :: ws =>
      match ws with
      | [] => w
      | _ => w ++ 32%N :: join_blank ws
      end
  end.

(** ** The international collector ([scrapers/others.py]) *)

(** The five collectors of [fetch_all_others], in the order of the
    calls. *)
Inductive wire : Type :=
  | TradeWinds | Bloomberg | TrendForce | UDNMoney | GMKCenter.

Definition wire_name (x : wire) : string :=
  match x with
  | TradeWinds => "TradeWinds"
  | Bloomberg => "Bloomberg"
  | TrendForce => "TrendForce"
  | UDNMoney => "UDN Money"
  | GMKCenter => "GMK Center"
  end.

(** What a [try] block records under the key of its collector. *)
Definition collected (o : outcome (list article)) : list article :=
  match o with
  | Returns articles => articles
  | Raises _ => []
  end.

(** One [try] block of [fetch_all_others]. *)
Definition try_wire (fetch_wire : wire → outcome (list article))
    (all_sources : gmap string (list article)) (x : wire)
    : gmap string (list article) :=
  match fetch_wire x with
  | Returns articles => <[wire_name x := articles]> all_sources
  | Raises _ => <[wire_name x := []]> all_sources
  end.

(** [fetch_all_others]: every collector is called inside a [try] of its
    own, and the function has no other way to leave than its
    [return]. *)
Definition fetch_all_others_of (fetch_wire : wire → outcome (list article))
    : gmap string (list article) :=
  foldl (try_wire fetch_wire) ∅
    [TradeWinds; Bloomberg; TrendForce; UDNMoney; GMKCenter].

(** ** The collection period and the target dates ([utils.py],
    [app.py], [main.py])

    A [date] is its proleptic Gregorian ordinal; [date.min] is day 1. *)

(** [date.weekday()]: Monday is 0. *)
Definition date_weekday (d : Z) : Z := ((d + 6) mod 7)%Z.

Definition weekday (t : naive) : Z := date_weekday (ordinal t).

(** [get_collection_hours]. *)
Definition get_collection_hours (clk : clock) : Z :=
  let current_day := weekday (local_now clk) in
  if (current_day =? 0)%Z then 72%Z else 24%Z.

(** [d - timedelta(days=1)]; [None] is [OverflowError]. *)
Definition day_before (d : Z) : option Z :=
  if (d <=? 1)%Z then None else Some (d - 1)%Z.

(** The [while] loop over the dates: the outer [None] is a loop that
    has not ended when the fuel is used up, the inner one
    [OverflowError]. *)
Fixpoint target_dates_loop (fuel : nat) (target_dates : list Z)
    (check_date cutoff_date : Z) : option (option (list Z)) :=
  match fuel with
  | O => None
  | S fuel' =>
      if (cutoff_date <=? check_date)%Z
      then
        match day_before check_date with
        | None => Some None
        | Some d =>
            target_dates_loop fuel' (target_dates ++ [check_date]) d
              cutoff_date
        end
      else Some (Some target_dates)
  end.

(** The dates the collectors are asked for, for a period of [hours]
    hours, [hours] not negative. *)
Definition target_dates (fuel : nat) (clk : clock) (hours : Z)
    : option (option (list Z)) :=
  let current_time := local_now clk in
  let cutoff_time := (micros current_time - hours * 3600000000)%Z in
  if (cutoff_time <? 86400000000)%Z then Some None
  else
    let current_date := ordinal current_time in
    let cutoff_date := (cutoff_time / 86400000000)%Z in
    match day_before current_date with
    | None => Some None
    | Some check_date =>
        target_dates_loop fuel [current_date] check_date cutoff_date
    end.

(** ** More records and collaborators for the closed examples *)

Definition second_article : article :=
  mk_article (py "Rates decision today") (py "http://b.com/2").

(** The first article again, from a link with a query string. *)
Definition repeated_article : article :=
  mk_article (py "Other words here") (py "http://a.com/1/?ref=home").

Definition wire_article (headline link : str) : article :=
  Dict (<["site" := py "TradeWinds"]>
          (<["headline" := headline]> (<["link" := link]> ∅))).

Definition dated_article (timestamp : str) : article :=
  Dict (<["timestamp" := timestamp]> ∅).

Definition sample_feed : list article :=
  [dated_article (py "2 hours ago"); dated_article (py "30 hours ago")].

(** Monday, 17 June 2024, nine in the morning. *)
Definition sample_monday : clock :=
  Clock (Naive 2024 6 17 9 0 0 0) (Naive 2024 6 17 1 0 0 0).

(** The collaborators of [sample_env] with the international collector
    of the program, whose TrendForce source fails. *)
Definition sample_wires (x : wire) : outcome (list article) :=
  match x with
  | TrendForce => Raises "timeout"
  | _ => Returns [sample_article]
  end.

Definition sample_env_wires : collaborators :=
  Collaborators 24 (fetch (sample_env Japan))
    (Returns (fetch_all_others_of sample_wires))
    (create_excel_file (sample_env Japan)).

(** * Properties *)

(** ** The validator and the deduplicator *)
Section PipelineFacts.
Context `{Unicode}.

Lemma Qle_bool_zero_div (q : Q) : Qle_bool (inject_Z 0 / q) (8 # 10) = true.
Proof.
  apply Qle_bool_iff. unfold Qle, Qdiv, Qmult, Qinv. simpl. lia.
Qed.

Lemma similar_jaccard (x y : str) :
  similar x y = negb (Qle_bool (jaccard x y) (8 # 10)).
Proof.
  unfold similar, jaccard.
  set (a := list_to_set (split_ws x) : gset (list N)).
  set (b := list_to_set (split_ws y) : gset (list N)).
  clearbody a b.
  destruct (Nat.ltb_spec 0 (size a)) as [Ha|Ha]; simpl.
  - destruct (Nat.ltb_spec 0 (size b)) as [Hb|Hb]; simpl.
    + assert (Hu : (0 < size (a ∪ b))%nat).
      { pose proof (subseteq_size a (a ∪ b) ltac:(set_solver)). lia. }
      destruct (Nat.ltb_spec 0 (size (a ∪ b))); [|lia].
      destruct (Nat.eqb_spec (size (a ∪ b)) 0); [lia|done].
    + assert (b = ∅) as -> by (apply leibniz_equiv, size_empty_inv; lia).
      rewrite intersection_empty_r_L.
      rewrite size_empty.
      destruct (size (a ∪ ∅) =? 0)%nat; [done|].
      change (Z.of_nat 0) with 0%Z. by rewrite Qle_bool_zero_div.
  - assert (a = ∅) as -> by (apply leibniz_equiv, size_empty_inv; lia).
    rewrite intersection_empty_l_L.
    rewrite size_empty.
    destruct (size (∅ ∪ b) =? 0)%nat; [done|].
    change (Z.of_nat 0) with 0%Z. by rewrite Qle_bool_zero_div.
Qed.

Lemma seen_check (kept : list article) (st : dedup_state) (a : article) :
  tracks kept st →
  bool_decide (url_key a ∈ seen_urls st)
  || existsb (similar (headline_key a)) (elements (seen_titles st))
  = existsb (duplicate_of a) kept.
Proof.
  intros (_ & Hu & Ht). apply eq_iff_eq_true.
  rewrite orb_true_iff, bool_decide_eq_true, !existsb_exists, Hu, Ht.
  rewrite elem_of_list_to_set, list_elem_of_fmap. split.
  - intros [(b & Hb & Hin)|(t & Hin & Hsim)].
    + exists b. split; [by apply list_elem_of_In|].
      unfold duplicate_of. rewrite Hb.
      by rewrite bool_decide_eq_true_2.
    + apply list_elem_of_In, elem_of_elements in Hin.
      apply elem_of_list_to_set, list_elem_of_fmap in Hin
        as (b & -> & Hin).
      exists b. split; [by apply list_elem_of_In|].
      unfold duplicate_of. rewrite <- similar_jaccard, Hsim.
      apply orb_true_r.
  - intros (b & Hin & Hdup). apply list_elem_of_In in Hin.
    unfold duplicate_of in Hdup. apply orb_true_iff in Hdup as [Hd|Hd].
    + left. apply bool_decide_eq_true in Hd. by exists b.
    + right. exists (headline_key b). split.
      * apply list_elem_of_In, elem_of_elements, elem_of_list_to_set,
          list_elem_of_fmap. by exists b.
      * by rewrite similar_jaccard.
Qed.

Lemma dedup_step_invalid (st : dedup_state) (a : article) :
  validate_article a = false → dedup_step st a = st.
Proof. intros Hv. unfold dedup_step. by rewrite Hv. Qed.

Lemma dedup_step_valid (kept : list article) (st : dedup_state)
    (a : article) :
  tracks kept st → validate_article a = true →
  if existsb (duplicate_of a) kept
  then dedup_step st a = st
  else tracks (kept ++ [a]) (dedup_step st a).
Proof.
  intros Htr Hv. pose proof (seen_check kept st a Htr) as Hchk.
  destruct a as [|fields]; [done|].
  unfold dedup_step. rewrite Hv. simpl negb. cbv iota.
  change (normalize_url (get_field fields "link"))
    with (url_key (Dict fields)).
  change (normalize_title (get_field fields "headline"))
    with (headline_key (Dict fields)).
  destruct (existsb (duplicate_of (Dict fields)) kept).
  - apply orb_true_iff in Hchk as [Hc|Hc]; rewrite Hc; [done|].
    by destruct (bool_decide _).
  - apply orb_false_iff in Hchk as [Hc1 Hc2]. rewrite Hc1, Hc2.
    destruct Htr as (Hk & Hu & Ht). unfold tracks; simpl.
    rewrite Hk, Hu, Ht, !fmap_app, !list_to_set_app_L. simpl.
    split_and!; [done|..];
      by rewrite union_empty_r_L, (comm_L (∪)).
Qed.

Lemma foldl_dedup_step (xs kept : list article) (st : dedup_state) :
  tracks kept st →
  unique_articles (foldl dedup_step st xs)
  = kept ++ first_seen kept (List.filter validate_article xs).
Proof.
  revert kept st. induction xs as [|a xs IH]; intros kept st Htr.
  - simpl. rewrite app_nil_r. by destruct Htr.
  - simpl. destruct (validate_article a) eqn:Hv.
    + pose proof (dedup_step_valid kept st a Htr Hv) as Hstep. simpl.
      destruct (existsb (duplicate_of a) kept).
      * rewrite Hstep. by apply IH.
      * rewrite (IH _ _ Hstep). by rewrite <- app_assoc.
    + rewrite dedup_step_invalid by done. by apply IH.
Qed.

(** The deduplicator is the first-seen walk over the valid records. *)
Lemma deduplicate_articles_first_seen (xs : list article) :
  deduplicate_articles xs = first_seen [] (List.filter validate_article xs).
Proof.
  destruct xs as [|a xs]; [done|].
  unfold deduplicate_articles.
  by rewrite (foldl_dedup_step (a :: xs) [] dedup_init).
Qed.

Lemma first_seen_sublist (kept xs : list article) :
  first_seen kept xs `sublist_of` xs.
Proof.
  revert kept. induction xs as [|a xs IH]; intros kept; simpl; [done|].
  destruct (existsb _ _); [by apply sublist_cons|by apply sublist_skip].
Qed.

Lemma filter_sublist (f : article → bool) (xs : list article) :
  List.filter f xs `sublist_of` xs.
Proof.
  induction xs as [|a xs IH]; simpl; [done|].
  destruct (f a); [by apply sublist_skip|by apply sublist_cons].
Qed.

Lemma filter_all (f : article → bool) (xs : list article) :
  Forall (λ a, f a = true) xs → List.filter f xs = xs.
Proof.
  induction 1 as [|a xs Ha _ IH]; simpl; [done|]. by rewrite Ha, IH.
Qed.

Lemma filter_valid (f : article → bool) (xs : list article) :
  Forall (λ a, f a = true) (List.filter f xs).
Proof.
  induction xs as [|a xs IH]; simpl; [done|].
  destruct (f a) eqn:Ha; [by constructor|done].
Qed.

Lemma first_seen_idem (kept xs : list article) :
  first_seen kept (first_seen kept xs) = first_seen kept xs.
Proof.
  revert kept. induction xs as [|a xs IH]; intros kept; simpl; [done|].
  destruct (existsb (duplicate_of a) kept) eqn:Hd; [done|].
  simpl. by rewrite Hd, IH.
Qed.

Lemma first_seen_Forall (P : article → Prop) (kept xs : list article) :
  Forall P xs → Forall P (first_seen kept xs).
Proof.
  intros Hxs. revert kept.
  induction Hxs as [|a xs Ha _ IH]; intros kept; simpl; [done|].
  destruct (existsb _ _); [done|by constructor].
Qed.

Lemma deduplicate_articles_valid (xs : list article) :
  Forall (λ a, validate_article a = true) (deduplicate_articles xs).
Proof.
  rewrite deduplicate_articles_first_seen.
  apply first_seen_Forall, filter_valid.
Qed.

Lemma missing_or_empty_get_field (fields : gmap string (list N))
    (field : string) :
  missing_or_empty fields field
  = match get_field fields field with [] => true | _ => false end.
Proof.
  unfold missing_or_empty, get_field.
  by destruct (fields !! field) as [[|]|].
Qed.

Lemma spam_rejected (fields : gmap string (list N)) (indicator : str) :
  In indicator spam_indicators →
  contains indicator (str_lower (get_field fields "headline")) = true →
  validate_article (Dict fields) = false.
Proof.
  intros Hin Hc.
  assert (existsb
            (λ i, contains i (str_lower (get_field fields "headline")))
            spam_indicators = true) as Hex
    by (apply existsb_exists; eauto).
  unfold validate_article. cbv zeta. rewrite Hex.
  repeat (match goal with |- (if ?b then _ else _) = _ =>
            destruct b; [done|] end).
  done.
Qed.

(** C1 (as amended).  The deduplicator first drops the records the
    validator rejects; of the others it drops exactly those whose
    normalized URL equals that of an article kept before, or whose
    normalized headline has a Jaccard similarity above 0.8 with that of
    an article kept before.  The articles kept are handed on unchanged
    and in the order of the input. *)
Theorem dedup_drops_invalid_and_duplicates (xs : list article) :
  deduplicate_articles xs = first_seen [] (List.filter validate_article xs)
  ∧ deduplicate_articles xs `sublist_of` xs.
Proof.
  split; [apply deduplicate_articles_first_seen|].
  rewrite deduplicate_articles_first_seen.
  etrans; [apply first_seen_sublist|apply filter_sublist].
Qed.

(** C4.  Deduplicating twice is deduplicating once. *)
Theorem dedup_idempotent (xs : list article) :
  deduplicate_articles (deduplicate_articles xs) = deduplicate_articles xs.
Proof.
  rewrite (deduplicate_articles_first_seen (deduplicate_articles xs)).
  rewrite filter_all by apply deduplicate_articles_valid.
  rewrite deduplicate_articles_first_seen. apply first_seen_idem.
Qed.

(** C10.  Every article the deduplicator returns passes the validator,
    and the records that fail it have no part in the result: leaving
    them out of the input changes nothing. *)
Theorem dedup_output_valid (xs : list article) :
  Forall (λ a, validate_article a = true) (deduplicate_articles xs)
  ∧ deduplicate_articles xs
    = deduplicate_articles (List.filter validate_article xs).
Proof.
  split; [apply deduplicate_articles_valid|].
  rewrite !deduplicate_articles_first_seen.
  by rewrite (filter_all _ (List.filter _ _)) by apply filter_valid.
Qed.

(** C5 (as amended).  The validator accepts a dictionary exactly when
    headline and link are present and not empty, the link starts with
    [http://] or [https://], the stripped headline has five characters
    or more, and the lower-cased headline contains none of the spam
    indicators: a headline with an indicator is rejected whatever its
    length. *)
Theorem validate_article_accepts (fields : gmap string (list N)) :
  validate_article (Dict fields) = true ↔
    get_field fields "headline" ≠ []
    ∧ get_field fields "link" ≠ []
    ∧ (startswith (py "http://") (get_field fields "link") = true
       ∨ startswith (py "https://") (get_field fields "link") = true)
    ∧ (5 ≤ length (strip (get_field fields "headline")))%nat
    ∧ ∀ indicator, In indicator spam_indicators →
        contains indicator (str_lower (get_field fields "headline"))
        = false.
Proof.
  unfold validate_article. cbn [existsb]. cbv zeta.
  rewrite !missing_or_empty_get_field.
  generalize (get_field fields "headline") as headline.
  generalize (get_field fields "link") as url. intros url headline.
  destruct headline as [|h0 h]; cbn [orb];
    [split; [done|by intros (? & _)]|].
  destruct url as [|l0 l]; cbn [orb]; [split; [done|by intros (_ & ? & _)]|].
  set (url := l0 :: l). set (headline := h0 :: h).
  destruct (startswith (py "http://") url || startswith (py "https://") url)
    eqn:Hurl; cbn [negb].
  - apply orb_true_iff in Hurl.
    destruct (Nat.ltb_spec (length (strip headline)) 5) as [Hlen|Hlen].
    { split; [done|]. intros (_ & _ & _ & ? & _). lia. }
    destruct (existsb _ spam_indicators) eqn:Hsp.
    + split; [done|]. intros (_ & _ & _ & _ & Hno).
      apply existsb_exists in Hsp as (i & Hi & Hc).
      rewrite (Hno i Hi) in Hc. done.
    + split; [|done]. intros _. split_and!; [done..|].
      intros i Hi. destruct (contains i _) eqn:Hc; [|done].
      assert (existsb (λ i, contains i (str_lower headline))
                spam_indicators = true) as Hex
        by (apply existsb_exists; eauto).
      congruence.
  - apply orb_false_iff in Hurl as [H1 H2].
    split; [done|]. intros (_ & _ & [?|?] & _); congruence.
Qed.

End PipelineFacts.

(** *** Closed instances (Basic Latin database) *)

(** The two records of the specification: a headline of two characters
    is rejected, a full headline with an https link is accepted. *)
Example validate_article_examples :
  validate_article (mk_article (py "Hi") (py "https://x.com")) = false
  ∧ validate_article
      (mk_article (py "Company X raises funding round")
         (py "https://x.com/a")) = true.
Proof. by vm_compute. Qed.

(** C1 as stated fails: a record with a headline of two characters is the
    only input, so no article was kept before it, and yet it is dropped;
    the first-seen walk of the claim keeps it. *)
Lemma dedup_drops_record_without_duplicate :
  deduplicate_articles [mk_article (py "Hi") (py "https://x.com")] = []
  ∧ first_seen [] [mk_article (py "Hi") (py "https://x.com")]
    = [mk_article (py "Hi") (py "https://x.com")].
Proof. by vm_compute. Qed.

(** C5 as stated fails: no length exempts a headline with a spam
    indicator.  Whatever the threshold, a longer headline that contains
    "click here", with every other condition met, is rejected. *)
Lemma spam_headline_not_exempt_by_length :
  ¬ ∃ threshold : nat, ∀ headline : str,
      (threshold < length headline)%nat →
      (5 ≤ length (strip headline))%nat →
      contains (py "click here") (str_lower headline) = true →
      validate_article (mk_article headline (py "https://x.com/a")) = true.
Proof.
  intros [th Hth].
  pose (headline := py "click here" ++ replicate th 97%N ++ py ".").
  assert (Hc : contains (py "click here") (str_lower headline) = true).
  { unfold headline. cbn [str_lower basic_latin]. rewrite !map_app.
    reflexivity. }
  assert (Hs : strip headline = headline).
  { unfold strip, rstrip, headline.
    change (lstrip (py "click here" ++ replicate th 97%N ++ py "."))
      with (py "click here" ++ replicate th 97%N ++ py ".").
    rewrite !rev_app_distr.
    change (lstrip ((rev (py ".") ++ rev (replicate th 97%N))
                    ++ rev (py "click here")))
      with ((rev (py ".") ++ rev (replicate th 97%N))
            ++ rev (py "click here")).
    by rewrite <- !rev_app_distr, rev_involutive. }
  assert (Hl : (th < length headline)%nat).
  { unfold headline. rewrite !length_app, length_replicate. simpl. lia. }
  assert (Hfive : (5 ≤ length headline)%nat).
  { unfold headline. rewrite !length_app. simpl. lia. }
  specialize (Hth headline Hl). rewrite Hs in Hth.
  specialize (Hth Hfive Hc).
  unfold mk_article in Hth.
  rewrite (spam_rejected _ (py "click here")) in Hth; [done| |].
  - simpl. tauto.
  - unfold get_field. by rewrite lookup_insert_eq.
Qed.

(** ** The collection run *)

Lemma sys_step_invoked (env : collaborators) (w : worker) (e : event) :
  invoked w = invoked_at (pos w) →
  invoked (sys_step env w e) = invoked_at (pos (sys_step env w e)).
Proof.
  intros Hw. destruct e; [|done]. unfold sys_step, task_step.
  destruct (pos w) as [|c|c| | |] eqn:Hp; rewrite ?Hp in Hw; simpl;
    try done.
  - rewrite Hw. by destruct c.
  - rewrite Hw. by destruct c.
  - by rewrite Hp.
Qed.

Lemma run_schedule_invoked (env : collaborators) (sched : list event)
    (w : worker) :
  invoked w = invoked_at (pos w) →
  invoked (run_schedule env sched w)
  = invoked_at (pos (run_schedule env sched w)).
Proof.
  revert w. induction sched as [|e sched IH]; intros w Hw; [done|].
  apply IH, sys_step_invoked, Hw.
Qed.

(** C6 (what the code does).  The worker never reads the flag a stop
    request clears: whatever stop requests a schedule holds and wherever
    they fall, a run that reaches its end has called all six collectors. *)
Theorem stop_request_cancels_nothing (env : collaborators)
    (sched : list event) (st : scraping_state) :
  pos (run_schedule env sched (start_worker st)) = Done →
  invoked (run_schedule env sched (start_worker st)) = all_collectors.
Proof.
  intros Hdone. rewrite run_schedule_invoked by done. by rewrite Hdone.
Qed.

Lemma stop_request_cancels_nothing_witness :
  let w := run_schedule (sample_env Others) stop_during_japan
             (start_worker idle_state) in
  pos w = Done
  ∧ invoked w = [Singapore; Japan; India; Korea; YahooFinance; Others].
Proof.
  assert (H : pos (run_schedule (sample_env Others) stop_during_japan
                     (start_worker idle_state)) = Done)
    by (vm_compute; reflexivity).
  split; [exact H|].
  exact (stop_request_cancels_nothing (sample_env Others)
           stop_during_japan idle_state H).
Defined.

(** The stop request of [stop_during_japan] is accepted (the run is
    under way, the flag goes down), and India, Korea, Yahoo Finance and
    the international sources are called after it all the same. *)
Example stop_during_japan_trace :
  let before := run_schedule (sample_env Others) [Step; Step; Step; Step]
                  (start_worker idle_state) in
  let after := sys_step (sample_env Others) before StopRequest in
  pos before = Finish Japan
  ∧ running (state before) = true
  ∧ fst (api_stop_scraping (state before)) = 200%Z
  ∧ running (state after) = false
  ∧ invoked after = [Singapore; Japan]
  ∧ invoked (run_schedule (sample_env Others) (replicate 11 Step) after)
    = [Singapore; Japan; India; Korea; YahooFinance; Others].
Proof. by vm_compute. Qed.

(** What the spreadsheet block adds to the error list. *)
Lemma generate_excel_errors (env : collaborators)
    (news : gmap string (list article)) (st : scraping_state) :
  errors (generate_excel env news st)
  = errors st
    ++ match create_excel_file env news (collection_hours env) with
       | Returns (true, _) => []
       | Returns (false, _) => ["Excel generation failed"]
       | Raises e => ["Excel generation: " +:+ e]
       end.
Proof.
  unfold generate_excel.
  destruct (create_excel_file env news (collection_hours env))
    as [[[|] path]|e]; simpl; by rewrite ?app_nil_r.
Qed.

(** The steps of the worker, one equation each. *)
Lemma task_step_init env st news inv wr co :
  task_step env (Worker Init st news inv wr co)
  = Worker (Begin Singapore)
      (emit_progress 0 "Initializing scrapers..." None
         (ScrapingState true (progress st) (current_source st) ∅ 0 []
            (last_excel_path st)))
      ∅ [] None None.
Proof. reflexivity. Qed.

Lemma task_step_begin env c st news inv wr co :
  task_step env (Worker (Begin c) st news inv wr co)
  = Worker (Finish c)
      (emit_progress (progress_before c) (collecting_message c) None st)
      news (inv ++ [c]) wr co.
Proof. reflexivity. Qed.

Lemma task_step_returns env c articles st news inv wr co :
  c ≠ Others → fetch env c = Returns articles →
  task_step env (Worker (Finish c) st news inv wr co)
  = Worker (after_collector c)
      (emit_progress (progress_after c)
         (source_name c +:+ ": " +:+ pretty (length articles)
          +:+ " articles collected")
         (Some {[source_name c := articles]}) st)
      (<[source_name c := articles]> news) inv wr co.
Proof.
  intros Hc Hf. unfold task_step; cbn [pos state news_by_source].
  unfold finish_collector. rewrite Hf. by destruct c.
Qed.

Lemma task_step_raises env c msg st news inv wr co :
  c ≠ Others → fetch env c = Raises msg →
  task_step env (Worker (Finish c) st news inv wr co)
  = Worker (after_collector c)
      (emit_progress (progress_after c)
         (source_name c +:+ ": Failed to collect articles") None
         (add_error (source_name c +:+ ": " +:+ msg) st))
      (<[source_name c := []]> news) inv wr co.
Proof.
  intros Hc Hf. unfold task_step; cbn [pos state news_by_source].
  unfold finish_collector. rewrite Hf. by destruct c.
Qed.

Lemma task_step_others_return env other_sources st news inv wr co :
  fetch_all_others env = Returns other_sources →
  task_step env (Worker (Finish Others) st news inv wr co)
  = Worker Excel
      (emit_progress 98
         ("International sources: "
          +:+ pretty (count_articles other_sources)
          +:+ " articles collected")
         (Some other_sources) st)
      (other_sources ∪ news) inv wr co.
Proof.
  intros Hf. unfold task_step; cbn [pos state news_by_source].
  unfold finish_collector. by rewrite Hf.
Qed.

Lemma task_step_others_raise env msg st news inv wr co :
  fetch_all_others env = Raises msg →
  task_step env (Worker (Finish Others) st news inv wr co)
  = Worker Excel (add_error ("Others: " +:+ msg) st) news inv wr co.
Proof.
  intros Hf. unfold task_step; cbn [pos state news_by_source].
  unfold finish_collector. by rewrite Hf.
Qed.

Lemma task_step_excel env st news inv wr co :
  task_step env (Worker Excel st news inv wr co)
  = Worker Finally (generate_excel env news st) news inv (Some news) co.
Proof. reflexivity. Qed.

Lemma task_step_finally env st news inv wr co :
  task_step env (Worker Finally st news inv wr co)
  = Worker Done (set_running false st) news inv wr
      (Some (CompleteEvent (bool_decide (errors st = []))
               (total_articles st) (errors st)
               (bool_decide (last_excel_path st ≠ None)))).
Proof. reflexivity. Qed.

Lemma errors_emit_progress p message sr st :
  errors (emit_progress p message sr st) = errors st.
Proof. reflexivity. Qed.

Lemma errors_add_error e st : errors (add_error e st) = errors st ++ [e].
Proof. reflexivity. Qed.

(** Run the worker from [Init], innermost step first. *)
Ltac run_worker :=
  unfold run_scraping_task, Nat.iter, start_worker; cbn [nat_rect];
  rewrite task_step_init;
  repeat first
    [ rewrite task_step_begin; cbn [after_collector]
    | erewrite task_step_returns by (done || eassumption);
      cbn [after_collector]
    | erewrite task_step_raises by (done || eassumption);
      cbn [after_collector]
    | erewrite task_step_others_return by eassumption
    | erewrite task_step_others_raise by eassumption
    | rewrite task_step_excel
    | rewrite task_step_finally ].




(** ** The timeframe filter *)
Section TimeframeFacts.
Context `{Unicode}.


End TimeframeFacts.


(** The buffer of one hour at a window of 24: an age of 25 hours is
    included, an age of 25.1 hours (1506 minutes) is not. *)
Example timeframe_buffer_examples :
  is_within_timeframe sample_clock (Some (py "25 hours ago")) (PyNum 24)
  = true
  ∧ parse_relative_time sample_clock (Some (py "1506 minutes ago"))
    = Some (1506 / 60)%Q
  ∧ (1506 / 60 == 251 / 10)%Q
  ∧ is_within_timeframe sample_clock (Some (py "1506 minutes ago"))
      (PyNum 24) = false.
Proof. by vm_compute. Qed.

(** ** Absolute dates and times *)

Lemma hours_of_micros_neg (us : Z) :
  (us < 0)%Z → (hours_of_micros us < 0)%Q.
Proof.
  intros Hus. unfold hours_of_micros, Qlt, Qdiv, Qmult, Qinv, inject_Z.
  simpl. lia.
Qed.

Section DateFacts.
Context `{Unicode}.

(** A calendar date that lies ahead of the clock has a negative age:
    [parse_date_format] subtracts and returns the difference as it is. *)
Lemma parse_date_format_future (clk : clock) (date_str : str)
    (date_obj : naive) :
  strptime_mdy 47 date_str = Some date_obj →
  (micros (local_now clk) < micros date_obj)%Z →
  ∃ q, parse_date_format clk date_str 47 = Some q ∧ (q < 0)%Q.
Proof.
  intros Hp Hlt. unfold parse_date_format. simpl. rewrite Hp.
  eexists. split; [reflexivity|]. apply hours_of_micros_neg. lia.
Qed.

End DateFacts.

(** C8 (what the code does).  At local noon of 15 June 2024 the dates
    12/31/2999 and 12-31-2999 are given negative ages by the time
    normalizer, and so is the timestamp 2999-01-01T00:00:00Z by
    [parse_iso_timestamp]. *)
Theorem future_dates_get_negative_ages :
  (∃ q, parse_relative_time sample_clock (Some (py "12/31/2999")) = Some q
        ∧ (q < 0)%Q)
  ∧ (∃ q, parse_relative_time sample_clock (Some (py "12-31-2999")) = Some q
          ∧ (q < 0)%Q)
  ∧ (∃ q, parse_iso_timestamp sample_clock (py "2999-01-01T00:00:00Z")
          = Some q ∧ (q < 0)%Q).
Proof.
  split_and!; eexists; (split; [vm_compute; reflexivity|reflexivity]).
Qed.

(** The clock-time rule next to it does guard against the future: at
    noon, "11:59 pm" is taken to be of yesterday, 12 hours and one
    minute ago. *)
Example clock_time_ahead_is_yesterday :
  ∃ q, parse_relative_time sample_clock (Some (py "11:59 pm")) = Some q
       ∧ (q == 12 + 1 / 60)%Q.
Proof. eexists. split; [vm_compute; reflexivity|reflexivity]. Qed.

(** ** ISO timestamps *)

Lemma consumed_app (p s : list N) : consumed (p ++ s) s = p.
Proof.
  unfold consumed. rewrite length_app.
  replace (length p + length s - length s)%nat with (length p) by lia.
  by rewrite take_app_length.
Qed.

Lemma replace_Z_id (x : list N) : 90%N ∉ x → replace_Z x = x.
Proof.
  induction x as [|c x IH]; intros Hx; [done|].
  apply not_elem_of_cons in Hx as [Hc Hx]. unfold replace_Z in *.
  cbn [flat_map]. destruct (N.eqb_spec c 90); [done|].
  cbn [app]. by rewrite IH.
Qed.

(** A string of nineteen characters is read as a naive value or not at
    all: an offset needs six characters more. *)
Lemma fromisoformat_19_naive (x : list N) (dt : datetime) :
  length x = 19%nat → fromisoformat x = Some dt → utcoffset dt = None.
Proof.
  intros Hlen Hf.
  do 19 (destruct x as [|? x]; [discriminate Hlen|]).
  destruct x; [|discriminate Hlen]. clear Hlen.
  unfold fromisoformat, expect in Hf.
  cbn [take_digits mbind option_bind] in Hf.
  repeat match type of Hf with
    | context [if ?b then _ else _] =>
        destruct b; cbn [take_digits mbind option_bind negb] in Hf;
        [|try discriminate Hf]; try discriminate Hf
    end.
  cbn [iso_fraction iso_offset mbind option_bind] in Hf.
  destruct (valid_time _ _ _ _); [|discriminate Hf].
  by injection Hf as <-.
Qed.

Section IsoFacts.
Context `{Unicode}.

Lemma re_search1_suffix (ic : bool) (g rest : regex) (s x : list N) :
  re_search1 ic g rest s = Some x →
  ∃ s', s' `suffix_of` s ∧ match_group1 ic g rest s' = Some x.
Proof.
  induction s as [|c s IH]; simpl.
  - destruct (match_group1 ic g rest []) eqn:Hm; [|done].
    intros [= <-]. by exists [].
  - destruct (match_group1 ic g rest (c :: s)) eqn:Hm.
    + intros [= <-]. by exists (c :: s).
    + intros (s' & Hs' & Hx)%IH. exists s'. split; [|done].
      by apply suffix_cons_r.
Qed.

(** What the ISO pattern captures: nineteen characters of the text. *)
Lemma match_iso_shape (s x : list N) :
  match_group1 true re_iso Eps s = Some x →
  length x = 19%nat ∧ x `prefix_of` s.
Proof.
  unfold match_group1, re_iso, dig. cbn [re_match]. intros Hm.
  repeat match type of Hm with
    | context [match ?l with [] => _ | _ :: _ => _ end] =>
        is_var l; destruct l as [|? l]; [discriminate Hm|]
    | context [if ?b then _ else _] => destruct b; [|discriminate Hm]
    end.
  match type of Hm with
  | Some (consumed ?l ?r) = _ =>
      match l with
      | ?c1 :: ?c2 :: ?c3 :: ?c4 :: ?c5 :: ?c6 :: ?c7 :: ?c8 :: ?c9 :: ?c10
        :: ?c11 :: ?c12 :: ?c13 :: ?c14 :: ?c15 :: ?c16 :: ?c17 :: ?c18
        :: ?c19 :: r =>
          change l with ([c1; c2; c3; c4; c5; c6; c7; c8; c9; c10; c11; c12;
                          c13; c14; c15; c16; c17; c18; c19] ++ r) in Hm |- *
      end
  end.
  rewrite consumed_app in Hm. injection Hm as <-.
  split; [done|]. by apply prefix_app_r.
Qed.

(** C9 (what the code does).  The group of the ISO pattern ends with the
    seconds: a Z or an offset behind them is not captured, and the text
    has been lower-cased, so it holds no capital Z.  Whatever the text,
    [parse_iso_timestamp] is therefore given a timestamp without time
    zone; reading it gives a naive value at best, the subtraction from
    the aware current time raises, and the result is [None]. *)
Theorem iso_rule_yields_unknown (clk : clock) (text x : list N) :
  90%N ∉ text →
  re_search1 true re_iso Eps text = Some x →
  parse_iso_timestamp clk x = None.
Proof.
  intros Hz (s' & [pre ->] & Hm)%re_search1_suffix.
  apply match_iso_shape in Hm as (Hlen & [post ->]).
  apply not_elem_of_app in Hz as [_ Hz].
  apply not_elem_of_app in Hz as [Hz _].
  unfold parse_iso_timestamp. rewrite replace_Z_id by done.
  destruct (fromisoformat x) as [dt|] eqn:Hf; [|done].
  apply fromisoformat_19_naive in Hf; [|done].
  unfold datetime_sub, datetime_now_utc. simpl. by rewrite Hf.
Qed.

End IsoFacts.

Lemma iso_rule_yields_unknown_witness :
(90%N ∉ py "2024-06-15t03:00:00z")
  ∧ re_search1 true re_iso Eps (py "2024-06-15t03:00:00z")
    = Some (py "2024-06-15t03:00:00")
  ∧ parse_iso_timestamp sample_clock (py "2024-06-15t03:00:00") = None.
Proof.
  assert (Hz : 90%N ∉ py "2024-06-15t03:00:00z").
  { intros Hin. apply list_elem_of_In in Hin. simpl in Hin.
    repeat (destruct Hin as [Hin|Hin]; [discriminate Hin|]). exact Hin. }
  assert (Hs : re_search1 true re_iso Eps (py "2024-06-15t03:00:00z")
               = Some (py "2024-06-15t03:00:00")) by reflexivity.
  split_and!; [exact Hz|exact Hs|].
  exact (iso_rule_yields_unknown sample_clock _ _ Hz Hs).
Defined.

(** The failing inputs of C9: one hour before the clock, with and
    without a designator, the normalizer answers [None]; given the
    designator, [parse_iso_timestamp] itself computes the hour. *)
Example iso_timestamps_unknown :
  parse_relative_time sample_clock (Some (py "2024-06-15T03:00:00")) = None
  ∧ parse_relative_time sample_clock (Some (py "2024-06-15T03:00:00Z"))
    = None
  ∧ parse_relative_time sample_clock
      (Some (py "2024-06-15T03:00:00+00:00")) = None
  ∧ parse_relative_time sample_clock (Some (py "2024-13-45T99:00:00"))
    = None
  ∧ ∃ q, parse_iso_timestamp sample_clock (py "2024-06-15T03:00:00Z")
         = Some q ∧ (q == 1)%Q.
Proof.
  split_and!; try (vm_compute; reflexivity).
  eexists. split; [vm_compute; reflexivity|reflexivity].
Qed.

(** ** Relative phrases *)

Lemma is_word_str_spec (s : list N) :
  is_word_str s = true → s ≠ [] ∧ Forall (λ c, word_char c = true) s.
Proof.
  destruct s as [|c s]; [done|]. unfold is_word_str.
  intros Hs. split; [done|]. apply Forall_forall.
  intros x Hx%list_elem_of_In. revert x Hx. by apply forallb_forall.
Qed.

Lemma lstrip_head (s : list N) :
  match s with [] => True | c :: _ => is_space c = false end →
  lstrip s = s.
Proof. destruct s as [|c s]; [done|]. simpl. by intros ->. Qed.

Lemma strip_id (s : list N) :
  Forall (λ c, is_space c = false) s → strip s = s.
Proof.
  intros Hs. unfold strip, rstrip.
  rewrite (lstrip_head s) by by destruct Hs.
  rewrite lstrip_head; [apply rev_involutive|].
  assert (Hr : Forall (λ c, is_space c = false) (rev s))
    by by apply List.Forall_rev.
  by destruct Hr.
Qed.

Lemma space_plain (c : N) : is_space c = true → plain c = true.
Proof. intros Hc. unfold plain. rewrite Hc. apply orb_true_r. Qed.

Lemma digit_plain (c : N) : ascii_digit c = true → plain c = true.
Proof.
  unfold ascii_digit, plain, ascii_upper. intros Hc.
  apply andb_true_iff in Hc as [H1%N.leb_le H2%N.leb_le].
  apply orb_true_iff. left. apply orb_true_iff. left.
  apply andb_true_iff. split; [apply N.ltb_lt; lia|].
  apply negb_true_iff, andb_false_iff. left. apply N.leb_gt. lia.
Qed.

Lemma digit_not_space (c : N) : ascii_digit c = true → is_space c = false.
Proof.
  unfold ascii_digit, is_space. intros Hc.
  apply andb_true_iff in Hc as [H1%N.leb_le H2%N.leb_le].
  repeat match goal with
    | |- context [(?a <=? ?b)%N] => destruct (N.leb_spec a b); try lia
    | |- context [(?a =? ?b)%N] => destruct (N.eqb_spec a b); try lia
    end; reflexivity.
Qed.

Lemma word_char_plain (c : N) : word_char c = true → plain c = true.
Proof. unfold word_char. by intros [[? _]%andb_true_iff _]%andb_true_iff. Qed.

Lemma word_char_not_space (c : N) : word_char c = true → is_space c = false.
Proof.
  unfold word_char.
  by intros [[_ ?%negb_true_iff]%andb_true_iff _]%andb_true_iff.
Qed.

Lemma word_char_not_digit (c : N) :
  word_char c = true → ascii_digit c = false.
Proof. unfold word_char. by intros [_ ?%negb_true_iff]%andb_true_iff. Qed.

Section RelativeFacts.
Context {U : Unicode} {UL : UnicodeLaws U}.

Lemma digit_decimal (c : N) :
  ascii_digit c = true → decimal c = Some (Z.of_N c - 48)%Z.
Proof.
  intros Hc. rewrite decimal_plain by by apply digit_plain.
  unfold ascii_decimal. by rewrite Hc.
Qed.

Lemma plain_not_decimal (c : N) :
  plain c = true → ascii_digit c = false → is_decimal c = false.
Proof.
  intros Hp Hc. unfold is_decimal. rewrite decimal_plain by done.
  unfold ascii_decimal. by rewrite Hc.
Qed.

Lemma ci_match_word_other (p t : N) :
  word_char p = true → plain t = true →
  is_space t = true ∨ ascii_digit t = true →
  ci_match p t = false.
Proof.
  intros Hp Ht Hst. rewrite ci_match_plain by auto using word_char_plain.
  apply N.eqb_neq. intros ->.
  destruct Hst as [Hs|Hd].
  - by rewrite (word_char_not_space _ Hp) in Hs.
  - by rewrite (word_char_not_digit _ Hp) in Hd.
Qed.

Lemma star_greedy_skip {A : Type} (p : N → bool) (W s : list N)
    (k : list N → option A) :
  Forall (λ c, p c = true ∧ ∀ s', k (c :: s') = None) W →
  star_greedy p (W ++ s) k = star_greedy p s k.
Proof.
  intros HW. induction HW as [|w W [Hw Hk] _ IH]; [done|].
  simpl. rewrite Hw, IH, Hk. by destruct (star_greedy p s k).
Qed.

Lemma star_greedy_stop {A : Type} (p : N → bool) (s : list N)
    (k : list N → option A) :
  match s with [] => True | c :: _ => p c = false end →
  star_greedy p s k = k s.
Proof. destruct s as [|c s]; [done|]. simpl. by intros ->. Qed.

Lemma re_match_Str {A : Type} (lit t : list N) (k : list N → option A) :
  Forall (λ c, plain c = true) lit → Forall (λ c, plain c = true) t →
  re_match true (Str lit) t k
  = if startswith lit t then k (drop (length lit) t) else None.
Proof.
  intros Hlit. revert t.
  induction Hlit as [|l lit Hl _ IH]; intros t Ht; [done|].
  destruct Ht as [|c t Hc Ht]; [done|].
  cbn [Str re_match startswith length drop].
  rewrite ci_match_plain by done.
  destruct (l =? c)%N; [|done]. by apply IH.
Qed.

Lemma startswith_word (lit unit : list N) (w : N) (rest : list N) :
  Forall (λ c, word_char c = true) lit → is_space w = true →
  startswith lit (unit ++ w :: rest) = startswith lit unit.
Proof.
  intros Hlit Hw. revert unit.
  induction Hlit as [|l lit Hl _ IH]; intros unit; [by destruct unit|].
  destruct unit as [|u unit]; simpl.
  - destruct (N.eqb_spec l w) as [->|]; [|done].
    by rewrite (word_char_not_space _ Hl) in Hw.
  - by rewrite IH.
Qed.

Lemma startswith_length (lit unit : list N) :
  startswith lit unit = true → (length lit ≤ length unit)%nat.
Proof.
  revert unit. induction lit as [|l lit IH]; intros unit; simpl; [lia|].
  destruct unit as [|u unit]; [done|].
  intros [_ ?%IH]%andb_true_iff. simpl. lia.
Qed.

Lemma re_match_spaces_tail {A : Type} (tl_j W2 tl : list N)
    (k : list N → option A) :
  tl_j ≠ [] → Forall (λ c, word_char c = true) tl_j →
  W2 ≠ [] → Forall (λ c, is_space c = true) W2 →
  Forall (λ c, word_char c = true) tl →
  re_match true (Cat (Plus is_space) (Str tl_j)) (W2 ++ tl) k
  = if startswith tl_j tl then k (drop (length tl_j) tl) else None.
Proof.
  intros Hne Htlj HW2ne HW2 Htl.
  destruct HW2 as [|w W2 Hw HW2]; [done|].
  unfold Plus. cbn [re_match app]. rewrite Hw.
  rewrite star_greedy_skip.
  - rewrite star_greedy_stop.
    + apply re_match_Str; eapply Forall_impl; eauto using word_char_plain.
    + destruct Htl as [|c tl Hc _]; [done|].
      by apply word_char_not_space.
  - eapply Forall_impl; [exact HW2|]. intros w' Hw'. split; [done|].
    intros s'. destruct Htlj as [|t0 tl_j Ht0 _]; [done|].
    cbn [Str re_match].
    by rewrite ci_match_word_other by auto using space_plain.
Qed.

Lemma rule_rest_accepts {A : Type} (lit : list N) (opt_s : bool)
    (tl_j W1 unit W2 tl : list N) (v : A) :
  lit ≠ [] → Forall (λ c, word_char c = true) lit →
  tl_j ≠ [] → Forall (λ c, word_char c = true) tl_j →
  unit ≠ [] → Forall (λ c, word_char c = true) unit →
  Forall (λ c, word_char c = true) tl →
  Forall (λ c, is_space c = true) W1 →
  W2 ≠ [] → Forall (λ c, is_space c = true) W2 →
  re_match true (rule_rest lit opt_s tl_j) (W1 ++ unit ++ W2 ++ tl)
    (λ _, Some v)
  = if rule_accepts lit opt_s tl_j unit tl then Some v else None.
Proof.
  intros Hlne Hlit Htne Htlj Hune Hunit Htl HW1 HW2ne HW2.
  unfold rule_rest. cbn [re_match].
  rewrite star_greedy_skip; cycle 1.
  { eapply Forall_impl; [exact HW1|]. intros w Hw. split; [done|].
    intros s'. destruct Hlit as [|l0 lit Hl0 _]; [done|].
    cbn [Str re_match].
    by rewrite ci_match_word_other by auto using space_plain. }
  rewrite star_greedy_stop; cycle 1.
  { destruct Hunit as [|u unit Hu _]; [done|].
    by apply word_char_not_space. }
  rewrite re_match_Str; cycle 1.
  { eapply Forall_impl; eauto using word_char_plain. }
  { repeat apply Forall_app_2;
      eapply Forall_impl; eauto using word_char_plain, space_plain. }
  unfold rule_accepts.
  destruct W2 as [|w W2]; [done|]. apply Forall_cons in HW2 as [Hw HW2].
  cbn [app]. rewrite startswith_word by done.
  destruct (startswith lit unit) eqn:Hsw; [|done]. cbn [andb].
  rewrite drop_app_le by by apply startswith_length.
  assert (Hrem : Forall (λ c, word_char c = true) (drop (length lit) unit))
    by by apply Forall_drop.
  set (rem := drop (length lit) unit) in *. clearbody rem.
  assert (Htail : ∀ k : list N → option A,
    re_match true (Cat (Plus is_space) (Str tl_j)) (w :: W2 ++ tl) k
    = if startswith tl_j tl then k (drop (length tl_j) tl) else None).
  { intros k. apply (re_match_spaces_tail tl_j (w :: W2) tl k); auto. }
  assert (Hword : ∀ (c : N) (s : list N) (k : list N → option A),
    word_char c = true →
    re_match true (Cat (Plus is_space) (Str tl_j)) (c :: s) k = None).
  { intros c s k Hc. unfold Plus. cbn [re_match].
    by rewrite (word_char_not_space _ Hc). }
  destruct opt_s.
  - unfold Opt. cbn [re_match].
    destruct Hrem as [|c rem Hc Hrem]; cbn [app].
    + rewrite ci_match_word_other by auto using space_plain.
      change (re_match true (Plus is_space) (w :: W2 ++ tl)
                (λ s', re_match true (Str tl_j) s' (λ _, Some v)))
        with (re_match true (Cat (Plus is_space) (Str tl_j))
                (w :: W2 ++ tl) (λ _, Some v)).
      rewrite Htail. by destruct (startswith tl_j tl).
    + rewrite ci_match_plain by auto using word_char_plain.
      change (re_match true (Plus is_space) (c :: rem ++ w :: W2 ++ tl)
                (λ s', re_match true (Str tl_j) s' (λ _, Some v)))
        with (re_match true (Cat (Plus is_space) (Str tl_j))
                (c :: rem ++ w :: W2 ++ tl) (λ _, Some v)).
      rewrite (Hword c) by done.
      rewrite (N.eqb_sym 115 c).
      destruct Hrem as [|c' rem Hc' Hrem]; cbn [app andb].
      * change (re_match true (Plus is_space) (w :: W2 ++ tl)
                  (λ s', re_match true (Str tl_j) s' (λ _, Some v)))
          with (re_match true (Cat (Plus is_space) (Str tl_j))
                  (w :: W2 ++ tl) (λ _, Some v)).
        rewrite Htail.
        destruct (c =? 115)%N; [|done]. by destruct (startswith tl_j tl).
      * change (re_match true (Plus is_space)
                  (c' :: rem ++ w :: W2 ++ tl)
                  (λ s', re_match true (Str tl_j) s' (λ _, Some v)))
          with (re_match true (Cat (Plus is_space) (Str tl_j))
                  (c' :: rem ++ w :: W2 ++ tl) (λ _, Some v)).
        rewrite (Hword c') by done. by destruct (c =? 115)%N.
  - destruct Hrem as [|c rem Hc Hrem]; cbn [app andb].
    + apply Htail.
    + rewrite (Hword c) by done. by destruct rem.
Qed.

Lemma rule_rest_rejects_digit {A : Type} (lit : list N) (opt_s : bool)
    (tl_j : list N) (d : N) (s' : list N) (k : list N → option A) :
  lit ≠ [] → Forall (λ c, word_char c = true) lit →
  ascii_digit d = true →
  re_match true (rule_rest lit opt_s tl_j) (d :: s') k = None.
Proof.
  intros Hne Hlit Hd. unfold rule_rest. cbn [re_match star_greedy].
  rewrite (digit_not_space _ Hd).
  destruct Hlit as [|l0 lit Hl0 _]; [done|]. cbn [Str re_match].
  by rewrite ci_match_word_other by auto using digit_plain.
Qed.

Lemma digits_group {A : Type} (D R : list N) (K : list N → option A) :
  D ≠ [] → Forall (λ c, ascii_digit c = true) D →
  match R with [] => True | c :: _ => is_decimal c = false end →
  (∀ d s', ascii_digit d = true → K (d :: s') = None) →
  re_match true (Plus is_decimal) (D ++ R) K = K R.
Proof.
  intros Hne HD HR HK. destruct HD as [|d D Hd HD]; [done|].
  unfold Plus. cbn [re_match app]. unfold is_decimal at 1.
  rewrite (digit_decimal _ Hd).
  rewrite star_greedy_skip.
  - by apply star_greedy_stop.
  - eapply Forall_impl; [exact HD|]. intros c Hc. split; [|by auto].
    unfold is_decimal. by rewrite (digit_decimal _ Hc).
Qed.

Lemma search_without_digit (rest : regex) (s : list N) :
  Forall (λ c, is_decimal c = false) s →
  re_search1 true (Plus is_decimal) rest s = None.
Proof.
  induction 1 as [|c s Hc _ IH]; [done|].
  cbn [re_search1]. unfold match_group1, Plus at 1. cbn [re_match].
  by rewrite Hc.
Qed.

Lemma space_not_decimal (c : N) : is_space c = true → is_decimal c = false.
Proof.
  intros Hc. apply plain_not_decimal; [by apply space_plain|].
  destruct (ascii_digit c) eqn:Hd; [|done].
  by rewrite (digit_not_space _ Hd) in Hc.
Qed.

Lemma word_not_decimal (c : N) : word_char c = true → is_decimal c = false.
Proof.
  intros Hc. apply plain_not_decimal;
    auto using word_char_plain, word_char_not_digit.
Qed.

Lemma Forall_head {A : Type} (P : A → Prop) (s : list A) :
  Forall P s → match s with [] => True | c :: _ => P c end.
Proof. by destruct 1. Qed.

Section NumericSearch.
Context (lit : list N) (opt_s : bool) (tl_j W1 unit W2 tl : list N).
Context (Hlne : lit ≠ []) (Hlit : Forall (λ c, word_char c = true) lit).
Context (Htne : tl_j ≠ []) (Htlj : Forall (λ c, word_char c = true) tl_j).
Context (Hune : unit ≠ []) (Hunit : Forall (λ c, word_char c = true) unit).
Context (Htl : Forall (λ c, word_char c = true) tl).
Context (HW1 : Forall (λ c, is_space c = true) W1).
Context (HW2ne : W2 ≠ []) (HW2 : Forall (λ c, is_space c = true) W2).

Lemma text_without_digit :
  Forall (λ c, is_decimal c = false) (W1 ++ unit ++ W2 ++ tl).
Proof using HW1 HW2 Hunit Htl UL.
  repeat apply Forall_app_2;
    eapply Forall_impl; eauto using space_not_decimal, word_not_decimal.
Qed.

Lemma match_numeric (D : list N) :
  D ≠ [] → Forall (λ c, ascii_digit c = true) D →
  match_group1 true (Plus is_decimal) (rule_rest lit opt_s tl_j)
    (D ++ W1 ++ unit ++ W2 ++ tl)
  = if rule_accepts lit opt_s tl_j unit tl then Some D else None.
Proof using All.
  intros HDne HD. unfold match_group1.
  rewrite digits_group; [| done | done | |].
  - by rewrite consumed_app, rule_rest_accepts.
  - apply (Forall_head (λ c, is_decimal c = false)), text_without_digit.
  - intros d s' Hd. by apply rule_rest_rejects_digit.
Qed.

Lemma search_numeric (D : list N) :
  D ≠ [] → Forall (λ c, ascii_digit c = true) D →
  re_search1 true (Plus is_decimal) (rule_rest lit opt_s tl_j)
    (D ++ W1 ++ unit ++ W2 ++ tl)
  = if rule_accepts lit opt_s tl_j unit tl then Some D else None.
Proof using All.
  intros HDne HD.
  destruct (rule_accepts lit opt_s tl_j unit tl) eqn:Hacc.
  - pose proof (match_numeric D HDne HD) as Hm. rewrite Hacc in Hm.
    destruct D as [|d D]; [done|]. cbn [app re_search1] in *.
    by rewrite Hm.
  - clear HDne. induction HD as [|d D Hd HD IH].
    + apply search_without_digit, text_without_digit.
    + pose proof (match_numeric (d :: D) ltac:(done)
                    ltac:(by constructor)) as Hm.
      rewrite Hacc in Hm. cbn [app re_search1] in *. by rewrite Hm.
Qed.

End NumericSearch.

Lemma int_digits_value (D : list N) (acc : Z) :
  Forall (λ c, ascii_digit c = true) D →
  int_digits acc D
  = Some (fold_left (λ a c, (10 * a + (Z.of_N c - 48))%Z) D acc).
Proof.
  intros HD. revert acc. induction HD as [|d D Hd _ IH]; intros acc; [done|].
  cbn [int_digits fold_left]. by rewrite (digit_decimal _ Hd), IH.
Qed.

Lemma int_of_digits (D : list N) :
  D ≠ [] → Forall (λ c, ascii_digit c = true) D →
  int_of D = Some (digits_value D).
Proof.
  intros Hne HD. unfold int_of. rewrite strip_id.
  - destruct D as [|d D]; [done|]. by apply int_digits_value.
  - eapply Forall_impl; eauto using digit_not_space.
Qed.

(** The loop over the numeric patterns on a text "<digits> <unit>
    <ago>": the first rule that accepts unit and "ago" converts the
    number. *)
Lemma first_conversion_numeric (clk : clock)
    (rules : list (list N * bool * list N * (Q → Q)))
    (more : list (regex * regex * converter))
    (D W1 unit W2 tl : list N) :
  Forall (λ r, is_word_str r.1.1.1 = true ∧ is_word_str r.1.2 = true)
    rules →
  is_word_str unit = true → Forall (λ c, word_char c = true) tl →
  D ≠ [] → Forall (λ c, ascii_digit c = true) D →
  Forall (λ c, is_space c = true) W1 →
  W2 ≠ [] → Forall (λ c, is_space c = true) W2 →
  first_conversion clk (map rule_pattern rules ++ more)
    (D ++ W1 ++ unit ++ W2 ++ tl)
  = match List.find (λ r, rule_accepts r.1.1.1 r.1.1.2 r.1.2 unit tl)
            rules with
    | Some r => Some (Some (r.2 (inject_Z (digits_value D))))
    | None => first_conversion clk more (D ++ W1 ++ unit ++ W2 ++ tl)
    end.
Proof.
  intros Hrules [Hune Hunit]%is_word_str_spec Htl HDne HD HW1 HW2ne HW2.
  induction Hrules as [|[[[lit opt_s] tl_j] f] rules [Hl Ht] _ IH]; [done|].
  apply is_word_str_spec in Hl as [Hlne Hlit].
  apply is_word_str_spec in Ht as [Htne Htlj].
  cbn [map app first_conversion rule_pattern List.find fst snd] in *.
  rewrite search_numeric by done.
  destruct (rule_accepts lit opt_s tl_j unit tl); [|done].
  unfold of_int. by rewrite int_of_digits.
Qed.

Lemma numeric_rules_wordy :
  Forall (λ r : list N * bool * list N * (Q → Q),
            is_word_str r.1.1.1 = true ∧ is_word_str r.1.2 = true)
    numeric_rules.
Proof. repeat (constructor; [by split|]). constructor. Qed.

(** Every unit of the specification is taken by one of the rules, the
    first of which converts with the unit's multiplier. *)
Lemma relative_units_rules :
  Forall (λ e : list N * list N * Q,
            is_word_str e.1.1 = true ∧ is_word_str e.1.2 = true
            ∧ ∃ r, List.find
                     (λ r : list N * bool * list N * (Q → Q),
                        rule_accepts r.1.1.1 r.1.1.2 r.1.2 e.1.1 e.1.2)
                     numeric_rules = Some r
                   ∧ ∀ x, (r.2 x == x * e.2)%Q)
    relative_units.
Proof.
  unfold relative_units.
  repeat (constructor;
    [split_and!;
       [reflexivity|reflexivity|
        eexists; split; [reflexivity|intros x; cbn [fst snd]; field]]|]).
  constructor.
Qed.


End RelativeFacts.

(** The Basic Latin database obeys the laws. *)
Lemma plain_not_upper (c : N) : plain c = true → ascii_upper c = false.
Proof.
  intros Hc. destruct (ascii_upper c) eqn:Hu; [|done].
  unfold plain in Hc. rewrite Hu in Hc. unfold ascii_upper in Hu.
  apply andb_true_iff in Hu as [H1%N.leb_le H2%N.leb_le].
  unfold is_space in Hc.
  repeat match type of Hc with
    | context [(?a <=? ?b)%N] =>
        first [rewrite (proj2 (N.leb_le a b)) in Hc by lia
              |rewrite (proj2 (N.leb_gt a b)) in Hc by lia]
    | context [(?a <? ?b)%N] =>
        first [rewrite (proj2 (N.ltb_lt a b)) in Hc by lia
              |rewrite (proj2 (N.ltb_ge a b)) in Hc by lia]
    | context [(?a =? ?b)%N] =>
        rewrite (proj2 (N.eqb_neq a b)) in Hc by lia
    end.
  discriminate Hc.
Qed.

#[export] Instance basic_latin_laws : UnicodeLaws basic_latin.
Proof.
  split.
  - reflexivity.
  - intros p t Hp Ht. cbn [ci_match basic_latin]. unfold ascii_tolower.
    by rewrite (plain_not_upper p), (plain_not_upper t).
Qed.


(** The phrases of the specification, and one in Hindi (5 घंटे पहले). *)
Example relative_phrase_examples :
  parse_relative_time sample_clock (Some (py "7 hours ago")) = Some 7%Q
  ∧ (∃ h, parse_relative_time sample_clock (Some (py "30 minutes ago"))
          = Some h ∧ (h == 1 # 2)%Q)
  ∧ (∃ h, parse_relative_time sample_clock (Some (py "2 days ago"))
          = Some h ∧ (h == 48)%Q)
  ∧ (∃ h, parse_relative_time sample_clock
            (Some (py "5 " ++ ghante ++ py " " ++ pahle))
          = Some h ∧ (h == 5)%Q)
  ∧ parse_relative_time sample_clock (Some []) = None
  ∧ parse_relative_time sample_clock None = None.
Proof.
  split_and!; try (vm_compute; reflexivity);
    (eexists; split; [vm_compute; reflexivity|reflexivity]).
Qed.

(** * Properties of the further code *)

(** ** More on the deduplicator *)
Section DedupMore.
Context `{Unicode}.

Lemma first_seen_app (kept xs ys : list article) :
  first_seen kept (xs ++ ys)
  = first_seen kept xs ++ first_seen (kept ++ first_seen kept xs) ys.
Proof.
  revert kept. induction xs as [|a xs IH]; intros kept; simpl.
  - by rewrite app_nil_r.
  - destruct (existsb (duplicate_of a) kept); [apply IH|].
    simpl. by rewrite IH, <- app_assoc.
Qed.

Lemma first_seen_fresh (kept xs l1 l2 : list article) (b : article) :
  first_seen kept xs = l1 ++ b :: l2 →
  existsb (duplicate_of b) (kept ++ l1) = false.
Proof.
  revert kept l1. induction xs as [|a xs IH]; intros kept l1; simpl.
  - by destruct l1.
  - destruct (existsb (duplicate_of a) kept) eqn:Hd; [apply IH|].
    destruct l1 as [|a' l1]; simpl.
    + intros [= <- _]. by rewrite app_nil_r.
    + intros [= <- Hrest]. apply IH in Hrest.
      by rewrite <- app_assoc in Hrest.
Qed.

(** X1.  In the output, no article is a duplicate of an article in front of
    it: the URL keys differ and the similarity of the headline keys is at
    most 0.8. *)
Theorem dedup_output_pairwise (xs l1 l2 l3 : list article) (a b : article) :
  deduplicate_articles xs = l1 ++ a :: l2 ++ b :: l3 →
  url_key b ≠ url_key a
  ∧ (jaccard (headline_key b) (headline_key a) <= 8 # 10)%Q.
Proof.
  rewrite deduplicate_articles_first_seen.
  replace (l1 ++ a :: l2 ++ b :: l3) with ((l1 ++ a :: l2) ++ b :: l3)
    by (by rewrite <- app_assoc).
  intros Hf%first_seen_fresh.
  simpl in Hf. rewrite existsb_app in Hf.
  apply orb_false_iff in Hf as [_ Hf].
  simpl in Hf. apply orb_false_iff in Hf as [Hf _]. unfold duplicate_of in Hf.
  apply orb_false_iff in Hf as [Hu Hj].
  split; [by apply bool_decide_eq_false in Hu|].
  apply negb_false_iff in Hj. by apply Qle_bool_iff.
Qed.

Lemma first_seen_NoDup (kept xs : list article) :
  NoDup (url_key <$> kept) →
  NoDup (url_key <$> (kept ++ first_seen kept xs)).
Proof.
  revert kept. induction xs as [|a xs IH]; intros kept Hk; simpl.
  - by rewrite app_nil_r.
  - destruct (existsb (duplicate_of a) kept) eqn:Hd; [by apply IH|].
    replace (kept ++ a :: first_seen (kept ++ [a]) xs)
      with ((kept ++ [a]) ++ first_seen (kept ++ [a]) xs)
      by (by rewrite <- app_assoc).
    apply IH.
    rewrite fmap_app. apply NoDup_app. split_and!; [done| |].
    + intros u Hu [->|[]%elem_of_nil]%elem_of_cons.
      apply list_elem_of_fmap in Hu as (b & Hb & Hin).
      assert (existsb (duplicate_of a) kept = true); [|congruence].
      apply existsb_exists. exists b. split; [by apply list_elem_of_In|].
      unfold duplicate_of. by rewrite Hb, bool_decide_eq_true_2.
    + simpl. apply NoDup_singleton.
Qed.

(** X2.  The URL keys of the output are pairwise different. *)
Theorem dedup_url_keys_distinct (xs : list article) :
  NoDup (url_key <$> deduplicate_articles xs).
Proof.
  rewrite deduplicate_articles_first_seen.
  apply (first_seen_NoDup [] _). constructor.
Qed.

(** X3.  Deduplicating a first batch, then the result together with a
    second batch, is deduplicating both batches at once; and what was
    kept of the first batch stays in front. *)
Theorem dedup_batches (xs ys : list article) :
  deduplicate_articles (xs ++ ys)
  = deduplicate_articles (deduplicate_articles xs ++ ys)
  ∧ deduplicate_articles xs `prefix_of` deduplicate_articles (xs ++ ys).
Proof.
  rewrite (deduplicate_articles_first_seen (xs ++ ys)).
  rewrite (deduplicate_articles_first_seen (deduplicate_articles xs ++ ys)).
  rewrite !List.filter_app, !first_seen_app.
  rewrite (filter_all _ (deduplicate_articles xs))
    by apply deduplicate_articles_valid.
  rewrite (deduplicate_articles_first_seen xs), first_seen_idem. simpl.
  split; [done|]. by apply prefix_app_r.
Qed.

(** X4.  An article that is a duplicate of one already kept is not
    added. *)
Theorem dedup_duplicate_not_added (xs : list article) (a b : article) :
  a ∈ deduplicate_articles xs → duplicate_of b a = true →
  deduplicate_articles (xs ++ [b]) = deduplicate_articles xs.
Proof.
  intros Ha Hd. rewrite (deduplicate_articles_first_seen (xs ++ [b])).
  rewrite List.filter_app, first_seen_app.
  rewrite <- deduplicate_articles_first_seen. simpl.
  destruct (validate_article b); simpl; [|by rewrite app_nil_r].
  assert (existsb (duplicate_of b) (deduplicate_articles xs) = true) as ->.
  { apply existsb_exists. exists a. split; [by apply list_elem_of_In|done]. }
  by rewrite app_nil_r.
Qed.

Lemma first_seen_covers (kept xs : list article) (a : article) :
  a ∈ xs →
  ∃ b, b ∈ kept ++ first_seen kept xs ∧ duplicate_of a b = true.
Proof.
  revert kept. induction xs as [|x xs IH]; intros kept Hin.
  { by apply elem_of_nil in Hin. }
  cbn [first_seen]. destruct (existsb (duplicate_of x) kept) eqn:Hd.
  - apply elem_of_cons in Hin as [->|Hin]; [|by apply IH].
    apply existsb_exists in Hd as (b & Hb & Hdup). exists b.
    split; [|done]. apply elem_of_app. left. by apply list_elem_of_In.
  - replace (kept ++ x :: first_seen (kept ++ [x]) xs)
      with ((kept ++ [x]) ++ first_seen (kept ++ [x]) xs)
      by (by rewrite <- app_assoc).
    apply elem_of_cons in Hin as [->|Hin]; [|by apply IH].
    exists x. split.
    + apply elem_of_app. left. apply elem_of_app. right. by left.
    + unfold duplicate_of. by rewrite bool_decide_eq_true_2.
Qed.

(** X5.  Every valid record of the input has a kept article that it
    duplicates: the same URL key, or headline keys more than 0.8
    similar. *)
Theorem dedup_covers_input (xs : list article) (a : article) :
  a ∈ xs → validate_article a = true →
  ∃ b, b ∈ deduplicate_articles xs ∧ duplicate_of a b = true.
Proof.
  intros Hin Hv. rewrite deduplicate_articles_first_seen.
  apply (first_seen_covers [] _ a).
  apply list_elem_of_In, filter_In. split; [by apply list_elem_of_In|done].
Qed.

End DedupMore.

Lemma dedup_output_pairwise_witness :
  url_key second_article ≠ url_key sample_article
  ∧ (jaccard (headline_key second_article) (headline_key sample_article)
     <= 8 # 10)%Q.
Proof.
  apply (dedup_output_pairwise [sample_article; second_article] [] [] []
           sample_article second_article).
  vm_compute. reflexivity.
Defined.

Lemma dedup_duplicate_not_added_witness :
  deduplicate_articles ([sample_article] ++ [repeated_article])
  = deduplicate_articles [sample_article].
Proof.
  apply (dedup_duplicate_not_added [sample_article] sample_article
           repeated_article).
  - vm_compute. left.
  - vm_compute. reflexivity.
Defined.

Lemma dedup_covers_input_witness :
  ∃ b, b ∈ deduplicate_articles [sample_article; repeated_article]
       ∧ duplicate_of repeated_article b = true.
Proof.
  apply (dedup_covers_input [sample_article; repeated_article]
           repeated_article).
  - right. left.
  - vm_compute. reflexivity.
Defined.

(** ** The URL key *)
Section UrlFacts.
Context `{Unicode}.

Lemma star_greedy_all {A : Type} (p : char → bool) (q : str)
    (k : str → option A) (v : A) :
  Forall (λ c, p c = true) q → k [] = Some v → star_greedy p q k = Some v.
Proof.
  intros Hq Hk. induction Hq as [|c q Hc _ IH]; simpl; [done|].
  by rewrite Hc, IH.
Qed.

Lemma re_sub_go_skip (ic : bool) (r : regex) (repl q rest : str) :
  re_sub_go ic r repl (length q) (q ++ rest) = re_sub_go ic r repl 0 rest.
Proof.
  induction q as [|c q IH]; simpl; [|done].
  by destruct rest.
Qed.

Lemma re_sub_query_plain (u rest : str) :
  Forall (λ c, query_mark c = false) u →
  re_sub false re_query [] (u ++ rest) = u ++ re_sub false re_query [] rest.
Proof.
  unfold re_sub. induction 1 as [|c u Hc _ IH]; [done|].
  cbn [app re_sub_go].
  assert (match_len false re_query (c :: u ++ rest) = None) as ->.
  { unfold match_len, re_query. cbn [re_match].
    unfold query_mark in Hc. by rewrite Hc. }
  by rewrite IH.
Qed.

Lemma re_sub_query_id (u : str) :
  Forall (λ c, query_mark c = false) u → re_sub false re_query [] u = u.
Proof.
  intros Hu. pose proof (re_sub_query_plain u [] Hu) as Hr.
  by rewrite !app_nil_r in Hr.
Qed.

Lemma re_sub_query_tail (sep : char) (q : str) :
  query_mark sep = true → Forall (λ c, c ≠ 10%N) q →
  re_sub false re_query [] (sep :: q) = [].
Proof.
  intros Hsep Hq. unfold re_sub. cbn [re_sub_go].
  assert (match_len false re_query (sep :: q) = Some (S (length q))) as ->.
  { unfold match_len, re_query. cbn [re_match].
    unfold query_mark in Hsep. rewrite Hsep.
    apply star_greedy_all; [|done].
    eapply Forall_impl; [exact Hq|]. intros c Hc. unfold dot.
    by apply negb_true_iff, N.eqb_neq. }
  cbn [app]. rewrite <- (app_nil_r q) at 2. by rewrite re_sub_go_skip.
Qed.

Lemma rstrip_char_replicate (x : char) (k : nat) (s : str) :
  rstrip_char x (s ++ replicate k x) = rstrip_char x s.
Proof.
  unfold rstrip_char. rewrite rev_app_distr. f_equal.
  replace (rev (replicate k x)) with (replicate k x).
  - induction k as [|k IH]; simpl; [done|]. by rewrite N.eqb_refl.
  - induction k as [|k IH]; simpl; [done|].
    rewrite <- IH. clear IH. induction k as [|k IH]; simpl; [done|].
    by rewrite <- IH.
Qed.

(** X6.  The URL key ignores trailing slashes, and a query string or
    fragment behind them. *)
Theorem url_key_ignores_query (u q : str) (k : nat) (sep : char) :
  Forall (λ c, query_mark c = false) u →
  query_mark sep = true →
  Forall (λ c, c ≠ 10%N) q →
  normalize_url (u ++ replicate k 47%N) = normalize_url u
  ∧ normalize_url ((u ++ replicate k 47%N) ++ sep :: q) = normalize_url u.
Proof.
  intros Hu Hsep Hq.
  assert (Hu' : Forall (λ c, query_mark c = false) (u ++ replicate k 47%N)).
  { apply Forall_app. split; [done|]. by apply Forall_replicate. }
  unfold normalize_url.
  rewrite (re_sub_query_plain (u ++ replicate k 47%N) (sep :: q) Hu').
  rewrite re_sub_query_tail by done.
  rewrite (re_sub_query_id _ Hu'), (re_sub_query_id _ Hu).
  by rewrite !app_nil_r, rstrip_char_replicate.
Qed.

End UrlFacts.

Lemma url_key_ignores_query_witness :
  normalize_url (py "http://a.com/1" ++ replicate 2 47%N)
  = normalize_url (py "http://a.com/1")
  ∧ normalize_url ((py "http://a.com/1" ++ replicate 2 47%N)
                   ++ 63%N :: py "utm=x#top")
    = normalize_url (py "http://a.com/1").
Proof.
  apply (url_key_ignores_query (py "http://a.com/1") (py "utm=x#top") 2 63%N).
  - repeat constructor.
  - reflexivity.
  - repeat (constructor; [discriminate|]). constructor.
Defined.

(** ** Every run of the worker *)

(** The fifteen steps of the worker in one piece. *)
Lemma run_scraping_task_final (env : collaborators) (st : scraping_state) :
  let news := fst (collect_all env st) in
  let final := set_running false
                 (generate_excel env news (snd (collect_all env st))) in
  run_scraping_task env st
  = Worker Done final news all_collectors (Some news)
      (Some (CompleteEvent (bool_decide (errors final = []))
               (total_articles final) (errors final)
               (bool_decide (last_excel_path final ≠ None)))).
Proof. reflexivity. Qed.

Lemma errors_finish_collector env c news st :
  errors (snd (finish_collector env c news st))
  = errors st ++ collector_error env c.
Proof.
  unfold finish_collector, collector_error.
  destruct c; (destruct (fetch env _) || destruct (fetch_all_others env));
    by rewrite ?app_nil_r.
Qed.

Lemma errors_collect (env : collaborators) (cs : list collector)
    (r : gmap string (list article) * scraping_state) :
  errors (snd (foldl (collector_block env) r cs))
  = errors (snd r) ++ flat_map (collector_error env) cs.
Proof.
  revert r. induction cs as [|c cs IH]; intros r; cbn [foldl flat_map].
  - by rewrite app_nil_r.
  - rewrite IH. unfold collector_block.
    rewrite errors_finish_collector, errors_emit_progress.
    by rewrite <- app_assoc.
Qed.

Lemma errors_final (env : collaborators) (st : scraping_state) :
  errors (state (run_scraping_task env st))
  = flat_map (collector_error env) all_collectors
    ++ excel_error env (news_by_source (run_scraping_task env st)).
Proof.
  rewrite run_scraping_task_final. cbn [state news_by_source].
  change (errors (set_running false ?s)) with (errors s).
  rewrite generate_excel_errors. fold (excel_error env (collect_all env st).1).
  unfold collect_all at 1. by rewrite errors_collect.
Qed.

Lemma running_finish_collector env c news st :
  running (snd (finish_collector env c news st)) = running st.
Proof.
  unfold finish_collector.
  by destruct c; (destruct (fetch env _) || destruct (fetch_all_others env)).
Qed.

Lemma running_generate_excel env news st :
  running (generate_excel env news st) = running st.
Proof.
  unfold generate_excel.
  by destruct (create_excel_file env news (collection_hours env))
    as [[[|] path]|e].
Qed.

Lemma progress_generate_excel env news st :
  progress (generate_excel env news st) = 100%Z.
Proof.
  unfold generate_excel.
  by destruct (create_excel_file env news (collection_hours env))
    as [[[|] path]|e].
Qed.

Lemma path_finish_collector env c news st :
  last_excel_path (snd (finish_collector env c news st))
  = last_excel_path st.
Proof.
  unfold finish_collector.
  by destruct c; (destruct (fetch env _) || destruct (fetch_all_others env)).
Qed.

Lemma path_collect (env : collaborators) (cs : list collector)
    (r : gmap string (list article) * scraping_state) :
  last_excel_path (snd (foldl (collector_block env) r cs))
  = last_excel_path (snd r).
Proof.
  revert r. induction cs as [|c cs IH]; intros r; cbn [foldl]; [done|].
  rewrite IH. unfold collector_block. by rewrite path_finish_collector.
Qed.

Lemma path_collect_all (env : collaborators) (st : scraping_state) :
  last_excel_path (snd (collect_all env st)) = last_excel_path st.
Proof. unfold collect_all. by rewrite path_collect. Qed.

Lemma path_generate_excel env news st :
  last_excel_path (generate_excel env news st)
  = match create_excel_file env news (collection_hours env) with
    | Returns (true, path) => Some path
    | _ => last_excel_path st
    end.
Proof.
  unfold generate_excel.
  by destruct (create_excel_file env news (collection_hours env))
    as [[[|] path]|e].
Qed.

(** X7.  Whatever the collaborators do, a run ends: the six collectors
    have been called in order, the spreadsheet writer has been handed
    the mapping, the flag is down, the progress stands at 100 and the
    final event reports the state the run leaves. *)
Theorem run_always_completes (env : collaborators) (st : scraping_state) :
  let w := run_scraping_task env st in
  pos w = Done
  ∧ invoked w = all_collectors
  ∧ written w = Some (news_by_source w)
  ∧ running (state w) = false
  ∧ progress (state w) = 100%Z
  ∧ completed w
    = Some (CompleteEvent (bool_decide (errors (state w) = []))
              (total_articles (state w)) (errors (state w))
              (bool_decide (last_excel_path (state w) ≠ None))).
Proof.
  intros w; subst w. rewrite run_scraping_task_final.
  cbn [pos invoked written news_by_source state completed].
  split_and!; try reflexivity.
  change (progress (set_running false ?s)) with (progress s).
  apply progress_generate_excel.
Qed.

(** X8.  The error list a run leaves: one string for each collector that
    raised, in the order of the calls, then what the spreadsheet block
    adds. *)
Theorem run_error_list (env : collaborators) (st : scraping_state) :
  let w := run_scraping_task env st in
  errors (state w)
  = flat_map (collector_error env) all_collectors
    ++ excel_error env (news_by_source w).
Proof. apply errors_final. Qed.

(** X9.  The final event reports success exactly when no collector raised
    and the spreadsheet writer returned success. *)
Theorem run_success_iff (env : collaborators) (st : scraping_state) :
  let w := run_scraping_task env st in
  ∃ ev, completed w = Some ev
        ∧ (success ev = true
           ↔ (∀ c, c ≠ Others → raised (fetch env c) = false)
             ∧ raised (fetch_all_others env) = false
             ∧ ∃ path, create_excel_file env (news_by_source w)
                         (collection_hours env) = Returns (true, path)).
Proof.
  intros w. pose proof (errors_final env st) as Herr. fold w in Herr.
  assert (Hev : completed w
                = Some (CompleteEvent (bool_decide (errors (state w) = []))
                          (total_articles (state w)) (errors (state w))
                          (bool_decide (last_excel_path (state w) ≠ None))))
    by (subst w; by rewrite run_scraping_task_final).
  clearbody w. eexists. split; [exact Hev|].
  cbn [success]. rewrite bool_decide_eq_true, Herr.
  cbn [all_collectors flat_map]. unfold collector_error, excel_error. split.
  - intros Hnil.
    repeat match goal with
      | H : _ ++ _ = [] |- _ => apply app_eq_nil in H as [? ?]
      end.
    split_and!.
    + intros [] Hc; try done;
        match goal with
        | |- raised (fetch env ?c) = _ => by destruct (fetch env c)
        end.
    + by destruct (fetch_all_others env).
    + destruct (create_excel_file env (news_by_source w)
                  (collection_hours env)) as [[[|] path]|e];
        [by exists path|done..].
  - intros (Hf & Ho & path & Hx).
    pose proof (Hf Singapore ltac:(done)). pose proof (Hf Japan ltac:(done)).
    pose proof (Hf India ltac:(done)). pose proof (Hf Korea ltac:(done)).
    pose proof (Hf YahooFinance ltac:(done)). rewrite Hx.
    destruct (fetch env Singapore); [|done].
    destruct (fetch env Japan); [|done].
    destruct (fetch env India); [|done].
    destruct (fetch env Korea); [|done].
    destruct (fetch env YahooFinance); [|done].
    by destruct (fetch_all_others env).
Qed.

(** X10.  The path of the last spreadsheet after a run: the path the
    writer returned with success, and otherwise the one an earlier run
    left behind. *)
Theorem run_last_excel_path (env : collaborators) (st : scraping_state) :
  let w := run_scraping_task env st in
  last_excel_path (state w)
  = match create_excel_file env (news_by_source w) (collection_hours env)
    with
    | Returns (true, path) => Some path
    | _ => last_excel_path st
    end.
Proof.
  intros w; subst w. rewrite run_scraping_task_final.
  cbn [state news_by_source].
  change (last_excel_path (set_running false ?s)) with (last_excel_path s).
  by rewrite path_generate_excel, path_collect_all.
Qed.

Lemma fst_finish_collector env c news st :
  c ≠ Others →
  fst (finish_collector env c news st)
  = <[source_name c := collected (fetch env c)]> news.
Proof.
  intros Hc. unfold finish_collector, collected.
  destruct c; [..|done]; by destruct (fetch env _).
Qed.

Lemma fst_finish_others env other_sources news st :
  fetch_all_others env = Returns other_sources →
  fst (finish_collector env Others news st) = other_sources ∪ news.
Proof. intros Hf. unfold finish_collector. by rewrite Hf. Qed.

(** ** The groups of a run *)

Lemma try_wire_insert fetch_wire all_sources x :
  try_wire fetch_wire all_sources x
  = <[wire_name x := collected (fetch_wire x)]> all_sources.
Proof. unfold try_wire, collected. by destruct (fetch_wire x). Qed.

Lemma fetch_all_others_wire fetch_wire x :
  fetch_all_others_of fetch_wire !! wire_name x
  = Some (collected (fetch_wire x)).
Proof.
  unfold fetch_all_others_of. cbn [foldl]. rewrite !try_wire_insert.
  destruct x; cbn [wire_name];
    rewrite ?lookup_insert_ne by done; by rewrite lookup_insert_eq.
Qed.

Lemma fetch_all_others_source fetch_wire c :
  fetch_all_others_of fetch_wire !! source_name c = None.
Proof.
  unfold fetch_all_others_of. cbn [foldl]. rewrite !try_wire_insert.
  destruct c; cbn [wire_name source_name];
    by rewrite !lookup_insert_ne by done.
Qed.

Lemma fetch_all_others_dom fetch_wire :
  dom (fetch_all_others_of fetch_wire)
  = list_to_set (wire_name <$>
                   [TradeWinds; Bloomberg; TrendForce; UDNMoney; GMKCenter]).
Proof.
  unfold fetch_all_others_of. cbn [foldl]. rewrite !try_wire_insert.
  rewrite !dom_insert_L, dom_empty_L. cbn [fmap list_fmap list_to_set].
  set_solver.
Qed.

(** X11.  The international collector never raises: it returns a mapping
    with the same five keys every time, none of them the key of another
    collector, each holding what its source returned, or the empty list
    when that source raised. *)
Theorem fetch_all_others_groups
    (fetch_wire : wire → outcome (list article)) :
  let all_sources := fetch_all_others_of fetch_wire in
  dom all_sources
  = list_to_set (wire_name <$>
                   [TradeWinds; Bloomberg; TrendForce; UDNMoney; GMKCenter])
  ∧ (∀ x, all_sources !! wire_name x = Some (collected (fetch_wire x)))
  ∧ (∀ c, all_sources !! source_name c = None).
Proof.
  split_and!.
  - apply fetch_all_others_dom.
  - apply fetch_all_others_wire.
  - apply fetch_all_others_source.
Qed.

(** X12.  With the international collector of the program, the mapping
    handed to the spreadsheet writer has the same ten groups in every
    run: under each key what the collector returned, or the empty list
    when it raised. *)
Theorem run_groups (env : collaborators) (st : scraping_state)
    (fetch_wire : wire → outcome (list article)) :
  fetch_all_others env = Returns (fetch_all_others_of fetch_wire) →
  let w := run_scraping_task env st in
  (∀ c, c ≠ Others →
        news_by_source w !! source_name c = Some (collected (fetch env c)))
  ∧ (∀ x, news_by_source w !! wire_name x
          = Some (collected (fetch_wire x)))
  ∧ dom (news_by_source w)
    = list_to_set
        ((source_name <$> [Singapore; Japan; India; Korea; YahooFinance])
         ++ (wire_name <$>
               [TradeWinds; Bloomberg; TrendForce; UDNMoney; GMKCenter])).
Proof.
  intros Hothers w; subst w. rewrite run_scraping_task_final.
  cbn [news_by_source]. unfold collect_all.
  cbn [foldl all_collectors]. unfold collector_block. cbn [fst snd].
  rewrite (fst_finish_others env _ _ _ Hothers).
  rewrite !fst_finish_collector by done.
  split_and!.
  - intros c Hc. rewrite lookup_union_r by apply fetch_all_others_source.
    destruct c; [..|done]; cbn [source_name];
      rewrite ?lookup_insert_ne by done; by rewrite lookup_insert_eq.
  - intros x. apply lookup_union_Some_l, fetch_all_others_wire.
  - rewrite dom_union_L, fetch_all_others_dom, !dom_insert_L, dom_empty_L.
    cbn [fmap list_fmap list_to_set app source_name wire_name].
    set_solver.
Qed.

Lemma run_groups_witness :
  let w := run_scraping_task sample_env_wires idle_state in
  (∀ c, c ≠ Others →
        news_by_source w !! source_name c
        = Some (collected (fetch sample_env_wires c)))
  ∧ (∀ x, news_by_source w !! wire_name x
          = Some (collected (sample_wires x)))
  ∧ dom (news_by_source w)
    = list_to_set
        ((source_name <$> [Singapore; Japan; India; Korea; YahooFinance])
         ++ (wire_name <$>
               [TradeWinds; Bloomberg; TrendForce; UDNMoney; GMKCenter])).
Proof.
  apply (run_groups sample_env_wires idle_state sample_wires).
  reflexivity.
Defined.

(** ** The worker and the request handlers *)

Lemma pos_task_step env w : pos (task_step env w) = next_position (pos w).
Proof. unfold task_step. by destruct (pos w) eqn:Hp. Qed.

Lemma running_task_step env w :
  running (state (task_step env w))
  = match pos w with
    | Init => true
    | Finally => false
    | _ => running (state w)
    end.
Proof.
  unfold task_step. destruct (pos w); cbn [state]; try reflexivity.
  - apply running_finish_collector.
  - apply running_generate_excel.
Qed.

Lemma next_position_not_Init p : next_position p ≠ Init.
Proof. by destruct p as [|c|[]| | |]. Qed.

Lemma pos_sys_step_not_Init env w e :
  pos w ≠ Init → pos (sys_step env w e) ≠ Init.
Proof.
  intros Hp. destruct e; [|done]. cbn [sys_step].
  rewrite pos_task_step. apply next_position_not_Init.
Qed.

Lemma totals_emit_progress p message sr st :
  total_articles st = count_articles (results st) →
  total_articles (emit_progress p message sr st)
  = count_articles (results (emit_progress p message sr st)).
Proof.
  intros Hst. unfold emit_progress. cbn [total_articles results].
  destruct sr as [sr|]; [|done]. by destruct (bool_decide (sr = ∅)).
Qed.

Lemma totals_finish_collector env c news st :
  total_articles st = count_articles (results st) →
  total_articles (snd (finish_collector env c news st))
  = count_articles (results (snd (finish_collector env c news st))).
Proof.
  intros Hst. unfold finish_collector.
  destruct c; (destruct (fetch env _) || destruct (fetch_all_others env));
    cbn [snd]; try by apply totals_emit_progress.
  done.
Qed.

Lemma totals_generate_excel env news st :
  total_articles st = count_articles (results st) →
  total_articles (generate_excel env news st)
  = count_articles (results (generate_excel env news st)).
Proof.
  intros Hst. unfold generate_excel.
  destruct (create_excel_file env news (collection_hours env))
    as [[[|] path]|e]; done.
Qed.

(** X13.  Once the worker has taken its first step, the article count of
    the shared state is the number of articles in its results, at every
    point of every interleaving of the worker with stop requests. *)
Theorem total_articles_counts_results (env : collaborators)
    (sched : list event) (st : scraping_state) :
  let w := run_schedule env (Step :: sched) (start_worker st) in
  total_articles (state w) = count_articles (results (state w)).
Proof.
  intros w; subst w. unfold run_schedule. cbn [foldl].
  assert (Hinv : pos (sys_step env (start_worker st) Step) ≠ Init
                 ∧ total_articles (state (sys_step env (start_worker st) Step))
                   = count_articles
                       (results (state (sys_step env (start_worker st) Step))))
    by (split; [done|reflexivity]).
  revert Hinv. generalize (sys_step env (start_worker st) Step).
  induction sched as [|e sched IH]; intros w [Hp Hw]; [done|].
  cbn [foldl]. apply IH. split; [by apply pos_sys_step_not_Init|].
  destruct e; cbn [sys_step].
  - unfold task_step.
    destruct (pos w) eqn:Hpos; cbn [state];
      first [ done
            | by apply totals_emit_progress
            | by apply totals_finish_collector
            | by apply totals_generate_excel ].
  - cbn [state]. unfold api_stop_scraping.
    by destruct (running (state w)).
Qed.

Lemma running_iter env st k :
  running (state (Nat.iter (S k) (task_step env) (start_worker st)))
  = match Nat.iter (S k) next_position Init with
    | Done => false
    | _ => true
    end.
Proof.
  induction k as [|k IH]; [reflexivity|].
  assert (Hpos : ∀ n, pos (Nat.iter n (task_step env) (start_worker st))
                      = Nat.iter n next_position Init).
  { induction n as [|n IHn]; [done|].
    cbn [Nat.iter nat_rect]. rewrite pos_task_step. by f_equal. }
  change (Nat.iter (S (S k)) (task_step env) (start_worker st))
    with (task_step env (Nat.iter (S k) (task_step env) (start_worker st))).
  rewrite running_task_step, Hpos, IH.
  change (Nat.iter (S (S k)) next_position Init)
    with (next_position (Nat.iter (S k) next_position Init)).
  by destruct (Nat.iter (S k) next_position Init) as [|c|[]| | |].
Qed.

(** X14.  Left alone, the worker keeps the flag up from its first step
    to its fourteenth: a start request is refused in between, and
    accepted again once the run is over. *)
Theorem start_refused_during_run (env : collaborators)
    (st : scraping_state) (k : nat) :
  (1 ≤ k)%nat →
  api_start_scraping (state (Nat.iter k (task_step env) (start_worker st)))
  = if (k <=? 14)%nat then 400%Z else 200%Z.
Proof.
  intros Hk. destruct k as [|k]; [lia|]. unfold api_start_scraping.
  rewrite running_iter.
  do 14 (destruct k as [|k]; [reflexivity|]).
  assert (Hdone : ∀ n, Nat.iter n next_position Done = Done).
  { induction n as [|n IHn]; [done|].
    change (Nat.iter (S n) next_position Done)
      with (next_position (Nat.iter n next_position Done)).
    by rewrite IHn. }
  replace (S (S (S (S (S (S (S (S (S (S (S (S (S (S (S k)))))))))))))))
    with (k + 15)%nat by lia.
  rewrite Nat.iter_add. change (Nat.iter 15 next_position Init) with Done.
  rewrite Hdone. destruct (Nat.leb_spec (k + 15) 14); [lia|done].
Qed.

Lemma start_refused_during_run_witness :
  api_start_scraping
    (state (Nat.iter 7 (task_step (sample_env Japan))
              (start_worker idle_state)))
  = 400%Z.
Proof.
  apply (start_refused_during_run (sample_env Japan) idle_state 7). lia.
Defined.

Lemma stopped_stays_down env sched w :
  pos w ≠ Init → running (state w) = false →
  running (state (run_schedule env sched w)) = false.
Proof.
  revert w. induction sched as [|e sched IH]; intros w Hp Hr; [done|].
  unfold run_schedule. cbn [foldl]. apply IH.
  - by apply pos_sys_step_not_Init.
  - destruct e; cbn [sys_step].
    + rewrite running_task_step. by destruct (pos w).
    + cbn [state]. unfold api_stop_scraping. by rewrite Hr.
Qed.

(** X15.  After a stop request that follows the first step of the worker,
    start requests are accepted, wherever the worker stands and whatever
    happens next. *)
Theorem start_accepted_after_stop (env : collaborators)
    (before after : list event) (st : scraping_state) :
  let w := run_schedule env (Step :: before ++ StopRequest :: after)
             (start_worker st) in
  api_start_scraping (state w) = 200%Z.
Proof.
  intros w; subst w. unfold run_schedule.
  change (Step :: before ++ StopRequest :: after)
    with ((Step :: before) ++ [StopRequest] ++ after).
  rewrite !foldl_app.
  set (w0 := foldl (sys_step env) (start_worker st) (Step :: before)).
  assert (Hp : pos w0 ≠ Init).
  { subst w0. cbn [foldl].
    assert (H0 : pos (sys_step env (start_worker st) Step) ≠ Init) by done.
    revert H0. generalize (sys_step env (start_worker st) Step).
    induction before as [|e l IH]; intros w H0; [done|].
    cbn [foldl]. by apply IH, pos_sys_step_not_Init. }
  unfold api_start_scraping.
  change (foldl (sys_step env) ?w after) with (run_schedule env after w).
  rewrite (stopped_stays_down env after); [done| |].
  - by apply pos_sys_step_not_Init.
  - cbn [foldl sys_step state]. unfold api_stop_scraping.
    by destruct (running (state w0)) eqn:Hr.
Qed.

(** ** Texts without a digit, and the window of the filter *)
Section WindowFacts.
Context `{Unicode}.

Lemma search_without_class (p : char → bool) (r rest : regex) (s : str) :
  Forall (λ c, p c = false) s →
  re_search1 true (Cat (Cls p) r) rest s = None.
Proof.
  induction 1 as [|c s Hc _ IH]; [done|].
  cbn [re_search1]. unfold match_group1. cbn [re_match].
  by rewrite Hc.
Qed.

(** X16.  In a text without a decimal digit no pattern of the table is
    found, and the phrases alone decide. *)
Theorem digitless_text_by_phrase (clk : clock) (t : str) :
  t ≠ [] →
  Forall (λ c, is_decimal c = false) (strip (str_lower t)) →
  parse_relative_time clk (Some t)
  = first_phrase special_cases (strip (str_lower t)).
Proof.
  intros Ht Hd. destruct t as [|c t]; [done|].
  unfold parse_relative_time.
  set (text := strip (str_lower (c :: t))) in *. clearbody text.
  assert (first_conversion clk patterns text = None) as ->; [|done].
  unfold patterns, re_iso, re_clock, re_date, dig, Plus.
  cbn [first_conversion].
  by rewrite !(search_without_class _ _ _ _ Hd).
Qed.

(** X17.  Widening the window never drops a timestamp. *)
Theorem timeframe_window_monotone (clk : clock) (t : option str)
    (h1 h2 : Q) :
  (h1 <= h2)%Q →
  is_within_timeframe clk t (PyNum h1) = true →
  is_within_timeframe clk t (PyNum h2) = true.
Proof.
  intros Hh. unfold is_within_timeframe, within_timeframe_body.
  destruct t as [[|c t]|]; [done| |done].
  destruct (parse_relative_time clk (Some (c :: t))) as [age|]; [|done].
  cbn [py_add_one]. rewrite !Qle_bool_iff. intros Hage.
  eapply Qle_trans; [exact Hage|]. by apply Qplus_le_l.
Qed.

Lemma filter_sublist_mono (f g : article → bool) (xs : list article) :
  (∀ a, f a = true → g a = true) →
  List.filter f xs `sublist_of` List.filter g xs.
Proof.
  intros Hfg. induction xs as [|a xs IH]; [done|]. cbn [List.filter].
  pose proof (Hfg a) as Ha. destruct (f a).
  - rewrite Ha by done. by apply sublist_skip.
  - destruct (g a); [by apply sublist_cons|done].
Qed.

Lemma filter_timeframe_Some (clk : clock) (xs : list article) (h : pyval) :
  NotDict ∉ xs →
  filter_articles_by_timeframe clk xs h
  = Some (List.filter
            (λ a, is_within_timeframe clk (Some (timestamp_of a)) h) xs).
Proof.
  induction xs as [|[|fields] xs IH]; intros Hxs; [done| |].
  - destruct Hxs. by left.
  - cbn [filter_articles_by_timeframe List.filter].
    rewrite IH by (intros Hin; apply Hxs; by right).
    cbn [mbind option_bind]. fold (timestamp_of (Dict fields)).
    by destruct (is_within_timeframe clk
                   (Some (timestamp_of (Dict fields))) h).
Qed.

Lemma filter_timeframe_None (clk : clock) (xs : list article) (h : pyval) :
  filter_articles_by_timeframe clk xs h = None ↔ NotDict ∈ xs.
Proof.
  induction xs as [|[|fields] xs IH].
  - split; [done|]. by intros ?%elem_of_nil.
  - split; [left|done].
  - cbn [filter_articles_by_timeframe].
    destruct (filter_articles_by_timeframe clk xs h) as [ys|]; simpl.
    + split; [done|]. intros [?|Hin]%elem_of_cons; [done|].
      by apply IH in Hin.
    + split; [|done]. intros _. right. by apply IH.
Qed.

(** X18.  The filter fails exactly when a record is no dictionary;
    otherwise what it keeps is a sublist of the input, and under a
    wider window it keeps at least the same articles. *)
Theorem filter_timeframe_window (clk : clock) (xs : list article)
    (h1 h2 : Q) :
  (h1 <= h2)%Q →
  match filter_articles_by_timeframe clk xs (PyNum h1),
        filter_articles_by_timeframe clk xs (PyNum h2) with
  | Some ys1, Some ys2 =>
      (NotDict ∉ xs) ∧ (ys1 `sublist_of` ys2) ∧ (ys2 `sublist_of` xs)
  | None, None => NotDict ∈ xs
  | _, _ => False
  end.
Proof.
  intros Hh.
  destruct (filter_articles_by_timeframe clk xs (PyNum h1)) as [ys1|] eqn:H1.
  - assert (Hin : NotDict ∉ xs).
    { intros Hin%(filter_timeframe_None clk xs (PyNum h1)). congruence. }
    rewrite filter_timeframe_Some in H1 by done.
    injection H1 as <-.
    rewrite filter_timeframe_Some by done. split; [done|].
    split; [|apply filter_sublist].
    apply filter_sublist_mono. intros a Ha.
    exact (timeframe_window_monotone clk (Some (timestamp_of a)) h1 h2
             Hh Ha).
  - apply filter_timeframe_None in H1 as Hin.
    by rewrite (proj2 (filter_timeframe_None clk xs (PyNum h2)) Hin).
Qed.

(** X19.  An article whose timestamp is missing, empty or not understood
    passes the filter under every window, and so does every article
    when the window is not a number. *)
Theorem filter_timeframe_keeps (clk : clock) (xs : list article)
    (h : pyval) :
  NotDict ∉ xs →
  ∃ ys, filter_articles_by_timeframe clk xs h = Some ys
        ∧ (∀ fields, Dict fields ∈ xs →
             parse_relative_time clk (Some (get_field fields "timestamp"))
             = None →
             Dict fields ∈ ys)
        ∧ (py_add_one h = None → ys = xs).
Proof.
  intros Hxs. rewrite filter_timeframe_Some by done.
  eexists. split; [reflexivity|]. split.
  - intros fields Hin Hp. apply list_elem_of_In, filter_In.
    split; [by apply list_elem_of_In|].
    unfold is_within_timeframe, within_timeframe_body.
    cbn [timestamp_of]. rewrite Hp.
    by destruct (get_field fields "timestamp").
  - intros Hh. apply filter_all. apply List.Forall_forall.
    intros a _. unfold is_within_timeframe, within_timeframe_body.
    rewrite Hh.
    destruct (timestamp_of a); [done|].
    by destruct (parse_relative_time _ _).
Qed.

End WindowFacts.

Lemma filter_timeframe_window_witness :
  match filter_articles_by_timeframe sample_clock sample_feed (PyNum 24),
        filter_articles_by_timeframe sample_clock sample_feed (PyNum 48) with
  | Some ys1, Some ys2 =>
      (NotDict ∉ sample_feed) ∧ (ys1 `sublist_of` ys2)
      ∧ (ys2 `sublist_of` sample_feed)
  | None, None => NotDict ∈ sample_feed
  | _, _ => False
  end.
Proof.
  apply (filter_timeframe_window sample_clock sample_feed 24 48).
  vm_compute. discriminate.
Defined.

Lemma filter_timeframe_keeps_witness :
  ∃ ys, filter_articles_by_timeframe sample_clock sample_feed PyNone = Some ys
        ∧ (∀ fields, Dict fields ∈ sample_feed →
             parse_relative_time sample_clock
               (Some (get_field fields "timestamp")) = None →
             Dict fields ∈ ys)
        ∧ (py_add_one PyNone = None → ys = sample_feed).
Proof.
  apply (filter_timeframe_keeps sample_clock sample_feed PyNone).
  intros Hin. unfold sample_feed in Hin.
  repeat (apply elem_of_cons in Hin as [Hin|Hin]; [discriminate Hin|]).
  by apply elem_of_nil in Hin.
Defined.

Lemma digitless_text_by_phrase_witness :
  parse_relative_time sample_clock (Some (py "Yesterday evening"))
  = first_phrase special_cases (strip (str_lower (py "Yesterday evening"))).
Proof.
  apply (digitless_text_by_phrase sample_clock (py "Yesterday evening")).
  - discriminate.
  - vm_compute. repeat constructor.
Defined.

Lemma timeframe_window_monotone_witness :
  is_within_timeframe sample_clock (Some (py "7 hours ago")) (PyNum 24)
  = true.
Proof.
  apply (timeframe_window_monotone sample_clock (Some (py "7 hours ago"))
           12 24).
  - vm_compute. discriminate.
  - vm_compute. reflexivity.
Defined.

(** ** The deduplicator of the international collectors *)
Section OthersFacts.
Context `{Unicode}.

Lemma others_step_invalid (st : Others.state) (a : article) :
  Others.validate_article_data a = false → Others.step st a = st.
Proof. intros Hv. unfold Others.step. by rewrite Hv. Qed.

Lemma others_step_seen (kept : list article) (st : Others.state)
    (a : article) :
  keeps kept st →
  Others.url_of a ∈ Others.url_of <$> kept
  ∨ Others.normalized_headline a ∈ Others.normalized_headline <$> kept →
  Others.step st a = st.
Proof.
  intros (_ & Hu & Hh) Hseen. unfold Others.step.
  destruct (Others.validate_article_data a); [|done]. cbn [negb].
  rewrite Hu, Hh.
  destruct Hseen as [Hs|Hs].
  - rewrite (bool_decide_eq_true_2 (_ ∈ list_to_set (Others.url_of <$> _)));
      [done|]. by apply elem_of_list_to_set.
  - rewrite (bool_decide_eq_true_2
               (_ ∈ list_to_set (Others.normalized_headline <$> _)));
      [by rewrite andb_false_r|]. by apply elem_of_list_to_set.
Qed.

Lemma others_step_new (kept : list article) (st : Others.state)
    (a : article) :
  keeps kept st →
  Others.validate_article_data a = true →
  Others.url_of a ∉ Others.url_of <$> kept →
  Others.normalized_headline a ∉ Others.normalized_headline <$> kept →
  keeps (kept ++ [a]) (Others.step st a).
Proof.
  intros (Hk & Hu & Hh) Hv Hnu Hnh. unfold Others.step.
  rewrite Hv. cbn [negb]. rewrite Hu, Hh.
  rewrite (bool_decide_eq_false_2 (_ ∈ list_to_set (Others.url_of <$> _)))
    by (by rewrite elem_of_list_to_set).
  rewrite (bool_decide_eq_false_2
             (_ ∈ list_to_set (Others.normalized_headline <$> _)))
    by (by rewrite elem_of_list_to_set).
  cbn [negb andb]. unfold keeps. cbn.
  rewrite Hk, !fmap_app, !list_to_set_app_L. cbn.
  split_and!; [done|..]; by rewrite union_empty_r_L, (comm_L (∪)).
Qed.

Lemma others_walk (xs kept : list article) (st : Others.state) :
  keeps kept st →
  Forall (λ a, Others.validate_article_data a = true) kept →
  NoDup (Others.url_of <$> kept) →
  NoDup (Others.normalized_headline <$> kept) →
  ∃ ys, Others.unique_articles (foldl Others.step st xs) = kept ++ ys
        ∧ ys `sublist_of` xs
        ∧ Forall (λ a, Others.validate_article_data a = true) (kept ++ ys)
        ∧ NoDup (Others.url_of <$> kept ++ ys)
        ∧ NoDup (Others.normalized_headline <$> kept ++ ys)
        ∧ ∀ a, a ∈ xs → Others.validate_article_data a = true →
               ∃ b, b ∈ kept ++ ys ∧ same_story a b = true.
Proof.
  revert kept st. induction xs as [|a xs IH]; intros kept st Hk Hv Hu Hh.
  - exists []. rewrite app_nil_r. destruct Hk as (Hk & _).
    split_and!; try done. by intros a ?%elem_of_nil.
  - cbn [foldl].
    assert (Hskip : Others.step st a = st →
              (Others.validate_article_data a = true →
               ∃ b, b ∈ kept ∧ same_story a b = true) →
              ∃ ys, Others.unique_articles
                      (foldl Others.step (Others.step st a) xs) = kept ++ ys
                ∧ ys `sublist_of` a :: xs
                ∧ Forall (λ a, Others.validate_article_data a = true)
                    (kept ++ ys)
                ∧ NoDup (Others.url_of <$> kept ++ ys)
                ∧ NoDup (Others.normalized_headline <$> kept ++ ys)
                ∧ ∀ a', a' ∈ a :: xs →
                        Others.validate_article_data a' = true →
                        ∃ b, b ∈ kept ++ ys ∧ same_story a' b = true).
    { intros -> Hrep.
      destruct (IH kept st Hk Hv Hu Hh) as (ys & Hy & Hs & Hvy & Huy & Hhy & Hc).
      exists ys. split_and!; try done; [by apply sublist_cons|].
      intros a' [->|Hin]%elem_of_cons Hva; [|by apply Hc].
      destruct (Hrep Hva) as (b & Hb & Hsame). exists b.
      split; [|done]. apply elem_of_app. by left. }
    destruct (Others.validate_article_data a) eqn:Hva;
      [|apply Hskip; [by apply others_step_invalid|done]].
    destruct (decide (Others.url_of a ∈ Others.url_of <$> kept)) as [Hau|Hau].
    { apply Hskip; [eapply others_step_seen; eauto|]. intros _.
      apply list_elem_of_fmap in Hau as (b & Hb & Hin). exists b.
      split; [done|]. unfold same_story.
      by rewrite Hb, bool_decide_eq_true_2. }
    destruct (decide (Others.normalized_headline a
                      ∈ Others.normalized_headline <$> kept)) as [Hah|Hah].
    { apply Hskip; [eapply others_step_seen; eauto|]. intros _.
      apply list_elem_of_fmap in Hah as (b & Hb & Hin). exists b.
      split; [done|]. unfold same_story.
      rewrite Hb, (bool_decide_eq_true_2 (_ = Others.normalized_headline b));
        [apply orb_true_r|done]. }
    destruct (IH (kept ++ [a]) (Others.step st a))
      as (ys & Hy & Hs & Hvy & Huy & Hhy & Hc).
    + by apply others_step_new.
    + apply Forall_app. split; [done|]. by constructor.
    + rewrite fmap_app. apply NoDup_app. split_and!; [done| |].
      * intros u Hu1 [->|[]%elem_of_nil]%elem_of_cons. done.
      * apply NoDup_singleton.
    + rewrite fmap_app. apply NoDup_app. split_and!; [done| |].
      * intros u Hu1 [->|[]%elem_of_nil]%elem_of_cons. done.
      * apply NoDup_singleton.
    + rewrite <- app_assoc in Hy, Hvy, Huy, Hhy. cbn [app] in *.
      exists (a :: ys). split_and!; try done; [by apply sublist_skip|].
      intros a' [->|Hin]%elem_of_cons Hva'.
      * exists a. split; [apply elem_of_app; right; by left|].
        unfold same_story. by rewrite bool_decide_eq_true_2.
      * destruct (Hc a' Hin Hva') as (b & Hb & Hsame). exists b.
        split; [|done]. by rewrite <- app_assoc in Hb.
Qed.

Lemma keeps_init : keeps [] (Others.State ∅ ∅ []).
Proof. done. Qed.

(** X20.  What the deduplicator of the international collectors returns
    is a sublist of its input, of valid records, with pairwise different
    URL keys and pairwise different headline keys. *)
Theorem others_dedup_sound (xs : list article) :
  let ys := Others.deduplicate_articles xs in
  ys `sublist_of` xs
  ∧ Forall (λ a, Others.validate_article_data a = true) ys
  ∧ NoDup (Others.url_of <$> ys)
  ∧ NoDup (Others.normalized_headline <$> ys).
Proof.
  intros ys. subst ys. destruct xs as [|x xs].
  { split_and!; try done; apply NoDup_nil_2. }
  unfold Others.deduplicate_articles.
  destruct (others_walk (x :: xs) [] _ keeps_init)
    as (ys & -> & Hs & Hv & Hu & Hh & _);
    [done|apply NoDup_nil_2|apply NoDup_nil_2|].
  done.
Qed.

(** X21.  Every valid record of the input has a kept record with its URL
    key or its headline key. *)
Theorem others_dedup_complete (xs : list article) (a : article) :
  a ∈ xs → Others.validate_article_data a = true →
  ∃ b, b ∈ Others.deduplicate_articles xs ∧ same_story a b = true.
Proof.
  intros Hin Hv. destruct xs as [|x xs]; [by apply elem_of_nil in Hin|].
  unfold Others.deduplicate_articles.
  destruct (others_walk (x :: xs) [] _ keeps_init)
    as (ys & -> & _ & _ & _ & _ & Hc);
    [done|apply NoDup_nil_2|apply NoDup_nil_2|].
  by apply Hc.
Qed.

Lemma others_walk_fresh (ys kept : list article) (st : Others.state) :
  keeps kept st →
  Forall (λ a, Others.validate_article_data a = true) ys →
  NoDup (Others.url_of <$> kept ++ ys) →
  NoDup (Others.normalized_headline <$> kept ++ ys) →
  Others.unique_articles (foldl Others.step st ys) = kept ++ ys.
Proof.
  revert kept st. induction ys as [|a ys IH]; intros kept st Hk Hv Hu Hh.
  - rewrite app_nil_r. by destruct Hk.
  - cbn [foldl]. apply Forall_cons in Hv as [Hva Hv].
    rewrite (IH (kept ++ [a])); [by rewrite <- app_assoc|..].
    + rewrite fmap_app in Hu, Hh. cbn in Hu, Hh.
      apply NoDup_app in Hu as (_ & Hu & _).
      apply NoDup_app in Hh as (_ & Hh & _).
      apply others_step_new; [done|done|..].
      * intros Hin. apply (Hu _ Hin). by left.
      * intros Hin. apply (Hh _ Hin). by left.
    + done.
    + by rewrite <- app_assoc.
    + by rewrite <- app_assoc.
Qed.

(** X22.  Running the deduplicator of the international collectors on
    its own output changes nothing. *)
Theorem others_dedup_idempotent (xs : list article) :
  Others.deduplicate_articles (Others.deduplicate_articles xs)
  = Others.deduplicate_articles xs.
Proof.
  destruct xs as [|x xs]; [done|].
  unfold Others.deduplicate_articles at 2 3.
  destruct (others_walk (x :: xs) [] _ keeps_init)
    as (ys & -> & _ & Hv & Hu & Hh & _);
    [done|apply NoDup_nil_2|apply NoDup_nil_2|].
  cbn [app] in *. destruct ys as [|y ys]; [done|].
  unfold Others.deduplicate_articles.
  by rewrite (others_walk_fresh (y :: ys) [] _ keeps_init).
Qed.

(** X23.  A record the validator of the international collectors accepts
    is accepted by the shared validator unless its headline has a spam
    indicator. *)
Theorem others_valid_then_valid (a : article) :
  Others.validate_article_data a = true →
  validate_article a
  = negb (existsb (λ indicator, contains indicator
                                  (str_lower (headline_of a)))
            spam_indicators).
Proof.
  destruct a as [|fields]; [done|].
  unfold Others.validate_article_data, validate_article. cbn [existsb].
  destruct (missing_or_empty fields "site"); [done|].
  destruct (missing_or_empty fields "headline"); [done|].
  destruct (missing_or_empty fields "link"); [done|]. cbn [orb].
  destruct (negb _); [done|].
  destruct (length (strip (get_field fields "headline")) <? 5)%nat; [done|].
  intros _. cbn [headline_of].
  by destruct (existsb _ spam_indicators).
Qed.

End OthersFacts.

Lemma others_dedup_complete_witness :
  ∃ b, b ∈ Others.deduplicate_articles
             [wire_article (py "Tanker rates climb") (py "https://t.com/a");
              wire_article (py "Tanker rates climb!") (py "https://t.com/b")]
       ∧ same_story
           (wire_article (py "Tanker rates climb!") (py "https://t.com/b")) b
         = true.
Proof.
  apply (others_dedup_complete
           [wire_article (py "Tanker rates climb") (py "https://t.com/a");
            wire_article (py "Tanker rates climb!") (py "https://t.com/b")]
           (wire_article (py "Tanker rates climb!") (py "https://t.com/b"))).
  - right. left.
  - vm_compute. reflexivity.
Defined.

Lemma others_valid_then_valid_witness :
  validate_article
    (wire_article (py "Click here for tanker rates") (py "https://t.com/a"))
  = negb (existsb
            (λ indicator,
               contains indicator
                 (str_lower
                    (headline_of
                       (wire_article (py "Click here for tanker rates")
                          (py "https://t.com/a")))))
            spam_indicators).
Proof.
  apply (others_valid_then_valid
           (wire_article (py "Click here for tanker rates")
              (py "https://t.com/a"))).
  vm_compute. reflexivity.
Defined.

(** ** File names and truncation *)

Lemma lstrip_by_suffix (p : char → bool) (s : str) :
  lstrip_by p s `suffix_of` s.
Proof.
  induction s as [|c s IH]; [done|]. cbn [lstrip_by].
  destruct (p c); [by apply suffix_cons_r|done].
Qed.

Lemma lstrip_by_head (p : char → bool) (s : str) (c : char) :
  head (lstrip_by p s) = Some c → p c = false.
Proof.
  induction s as [|x s IH]; [done|]. cbn [lstrip_by].
  destruct (p x) eqn:Hx; [done|]. by intros [= <-].
Qed.

Lemma lstrip_by_keep (p : char → bool) (u : str) (c : char) :
  p c = false → lstrip_by p (u ++ [c]) = lstrip_by p u ++ [c].
Proof.
  intros Hc. induction u as [|x u IH]; cbn [app lstrip_by].
  - by rewrite Hc.
  - by destruct (p x).
Qed.

Lemma strip_by_head (p : char → bool) (s : str) (c : char) :
  head (strip_by p s) = Some c → p c = false.
Proof.
  unfold strip_by. pose proof (lstrip_by_head p s) as Hh.
  destruct (lstrip_by p s) as [|x t]; [done|].
  specialize (Hh x eq_refl). cbn [rev].
  rewrite (lstrip_by_keep p (rev t) x Hh), rev_app_distr. cbn.
  by intros [= <-].
Qed.

Lemma lstrip_by_Forall (P : char → Prop) (p : char → bool) (s : str) :
  Forall P s → Forall P (lstrip_by p s).
Proof.
  intros Hs. destruct (lstrip_by_suffix p s) as [k Hk].
  rewrite Hk in Hs. by apply Forall_app in Hs as [_ ?].
Qed.

Lemma strip_by_Forall (P : char → Prop) (p : char → bool) (s : str) :
  Forall P s → Forall P (strip_by p s).
Proof.
  intros Hs. unfold strip_by.
  by apply List.Forall_rev, lstrip_by_Forall, List.Forall_rev,
    lstrip_by_Forall.
Qed.

Section FileNames.
Context `{Unicode}.

Lemma re_sub_class (p : char → bool) (r : char) (s : str) :
  re_sub false (Cls p) [r] s = map (λ c, if p c then r else c) s.
Proof.
  unfold re_sub. induction s as [|c s IH]; [done|].
  cbn [re_sub_go map]. unfold match_len. cbn [re_match].
  destruct (p c); [|by rewrite IH].
  replace (length (c :: s) - length s)%nat with 1%nat by (cbn; lia).
  cbn [app]. by rewrite IH.
Qed.

(** X24.  A sanitized file name is not empty, has at most 255
    characters, none of them one of the nine invalid characters, and
    does not begin with a blank or a dot. *)
Theorem sanitize_filename_safe (filename : str) :
  let name := sanitize_filename filename in
  name ≠ []
  ∧ (length name ≤ 255)%nat
  ∧ Forall (λ c, invalid_char c = false) name
  ∧ ∀ c, head name = Some c → c ≠ 32%N ∧ c ≠ 46%N.
Proof.
  intros name. subst name. unfold sanitize_filename.
  destruct filename as [|x filename].
  { split_and!; [done|cbn; lia|by repeat constructor|].
    intros c [= <-]. done. }
  change (py "_") with [95%N]. rewrite re_sub_class.
  set (replaced := map _ (x :: filename)).
  assert (Hrep : Forall (λ c, invalid_char c = false) replaced).
  { subst replaced. apply Forall_map, Forall_forall. intros c _.
    by destruct (invalid_char c) eqn:Hc. }
  clearbody replaced.
  set (p := λ c : N, (c =? 32)%N || (c =? 46)%N).
  pose proof (strip_by_Forall _ p replaced Hrep) as Hstr.
  pose proof (strip_by_head p replaced) as Hhead.
  set (stripped := strip_by p replaced) in *. clearbody stripped.
  set (cut := if (255 <? length stripped)%nat then take 255 stripped
              else stripped).
  assert (Hlen : (length cut ≤ 255)%nat).
  { subst cut. destruct (Nat.ltb_spec 255 (length stripped)); [|lia].
    rewrite length_take. lia. }
  assert (Hcut : Forall (λ c, invalid_char c = false) cut).
  { subst cut. destruct (255 <? length stripped)%nat; [|done].
    by apply Forall_take. }
  assert (Hcuthead : ∀ c, head cut = Some c → p c = false).
  { subst cut. destruct (255 <? length stripped)%nat; [|done].
    intros c Hc. apply Hhead. by destruct stripped. }
  clearbody cut. destruct cut as [|c cut].
  { split_and!; [done|cbn; lia|by repeat constructor|].
    intros c [= <-]. done. }
  split_and!; [done|done|done|].
  intros c' [= <-]. specialize (Hcuthead c eq_refl). subst p.
  apply orb_false_iff in Hcuthead as [?%N.eqb_neq ?%N.eqb_neq]. done.
Qed.

End FileNames.

(** X25.  A text longer than the limit is cut to a prefix followed by the
    ellipsis, of at most the limit in length, provided the ellipsis is
    no longer than the limit. *)
Theorem truncate_text_bound (text ellipsis : str) (max_length : Z) :
  (max_length < Z.of_nat (length text))%Z →
  (Z.of_nat (length ellipsis) ≤ max_length)%Z →
  ∃ kept, truncate_text text max_length ellipsis = kept ++ ellipsis
          ∧ kept `prefix_of` text
          ∧ (Z.of_nat (length (kept ++ ellipsis)) ≤ max_length)%Z.
Proof.
  intros Hlong Hell. unfold truncate_text.
  destruct text as [|x text]; [cbn in Hlong; lia|].
  destruct (Z.leb_spec (Z.of_nat (length (x :: text))) max_length); [lia|].
  set (room := (max_length - Z.of_nat (length ellipsis))%Z).
  assert (Hs : ∀ n s, slice_to n s `prefix_of` s).
  { intros n s. unfold slice_to. destruct (0 <=? n)%Z; apply prefix_take. }
  assert (Hroom : length (slice_to room (x :: text)) = Z.to_nat room).
  { unfold slice_to. destruct (Z.leb_spec 0 room); [|lia].
    rewrite length_take. lia. }
  eexists. split; [reflexivity|]. split.
  - destruct (Qle_bool _ _); [apply Hs|].
    etrans; [apply Hs|apply Hs].
  - rewrite length_app.
    assert (length (if Qle_bool
                       (inject_Z (rfind 32 (slice_to room (x :: text))))
                       (inject_Z max_length * (8 # 10))
                     then slice_to room (x :: text)
                     else slice_to (rfind 32 (slice_to room (x :: text)))
                            (slice_to room (x :: text)))
            ≤ Z.to_nat room)%nat; [|lia].
    destruct (Qle_bool _ _); [lia|].
    rewrite <- Hroom. apply prefix_length, Hs.
Qed.

Lemma truncate_text_bound_witness :
  ∃ kept, truncate_text (py "markets rally as rates hold") 20 (py "...")
          = kept ++ py "..."
          ∧ kept `prefix_of` py "markets rally as rates hold"
          ∧ (Z.of_nat (length (kept ++ py "...")) ≤ 20)%Z.
Proof.
  apply (truncate_text_bound (py "markets rally as rates hold") (py "...") 20).
  - vm_compute. reflexivity.
  - vm_compute. discriminate.
Defined.

(** ** White space *)

Lemma lstrip_split (s : str) :
  ∃ sp, s = sp ++ lstrip s.
Proof.
  induction s as [|c s [sp IH]]; [by exists []|]. cbn [lstrip].
  destruct (is_space c); [|by exists []].
  exists (c :: sp). cbn [app]. by f_equal.
Qed.

Lemma lstrip_idem (s : str) : lstrip (lstrip s) = lstrip s.
Proof.
  induction s as [|c s IH]; [done|]. cbn [lstrip].
  destruct (is_space c) eqn:Hc; [done|]. cbn [lstrip]. by rewrite Hc.
Qed.

Lemma lstrip_length (s : str) : (length (lstrip s) ≤ length s)%nat.
Proof.
  destruct (lstrip_split s) as [sp Hsp]. rewrite Hsp at 2.
  rewrite length_app. lia.
Qed.

Lemma rstrip_snoc (s : str) (c : char) :
  rstrip (s ++ [c]) = if is_space c then rstrip s else s ++ [c].
Proof.
  unfold rstrip. rewrite rev_app_distr. cbn [rev app lstrip].
  destruct (is_space c); [done|]. cbn [rev]. by rewrite rev_involutive.
Qed.

Lemma lstrip_app (x y : str) :
  lstrip x ≠ [] → lstrip (x ++ y) = lstrip x ++ y.
Proof.
  induction x as [|c x IH]; [done|]. cbn [lstrip app].
  by destruct (is_space c).
Qed.

Lemma rstrip_app (a b : str) :
  rstrip b ≠ [] → rstrip (a ++ b) = a ++ rstrip b.
Proof.
  unfold rstrip. intros Hb. rewrite rev_app_distr, lstrip_app.
  - by rewrite rev_app_distr, rev_involutive.
  - intros Hn. apply Hb. by rewrite Hn.
Qed.

Lemma rstrip_word (w : str) :
  Forall (λ c, is_space c = false) w → rstrip w = w.
Proof.
  intros Hw. unfold rstrip. rewrite lstrip_head; [apply rev_involutive|].
  assert (Hr : Forall (λ c, is_space c = false) (rev w))
    by by apply List.Forall_rev.
  by destruct Hr.
Qed.

(** A text is a word, and then nothing or white space. *)
Lemma word_split (s : str) :
  ∃ w rest, s = w ++ rest
            ∧ Forall (λ c, is_space c = false) w
            ∧ match rest with
              | [] => True
              | c :: _ => is_space c = true
              end.
Proof.
  induction s as [|c s (w & rest & -> & Hw & Hrest)].
  - by exists [], [].
  - destruct (is_space c) eqn:Hc.
    + by exists [], (c :: w ++ rest).
    + exists (c :: w), rest. split_and!; [done|by constructor|done].
Qed.

Lemma split_ws_go_word (cur w rest : str) :
  Forall (λ c, is_space c = false) w →
  split_ws_go cur (w ++ rest) = split_ws_go (rev w ++ cur) rest.
Proof.
  intros Hw. revert cur. induction Hw as [|c w Hc _ IH]; intros cur; [done|].
  cbn [app split_ws_go]. rewrite Hc, IH. cbn [rev]. by rewrite <- app_assoc.
Qed.

Lemma split_ws_lstrip (s : str) : split_ws (lstrip s) = split_ws s.
Proof.
  unfold split_ws. induction s as [|c s IH]; [done|].
  cbn [lstrip]. destruct (is_space c) eqn:Hc; [|done].
  cbn [split_ws_go]. by rewrite Hc.
Qed.

Lemma split_ws_word (w rest : str) :
  w ≠ [] → Forall (λ c, is_space c = false) w →
  match rest with [] => True | c :: _ => is_space c = true end →
  split_ws (w ++ rest) = w :: split_ws (lstrip rest).
Proof.
  intros Hne Hw Hrest. unfold split_ws at 1.
  rewrite split_ws_go_word, app_nil_r by done.
  assert (Hr : rev w ≠ []).
  { intros Hr. apply Hne. by rewrite <- (rev_involutive w), Hr. }
  destruct rest as [|c r]; cbn [split_ws_go lstrip].
  - destruct (rev w) eqn:E; [done|]. by rewrite <- E, rev_involutive.
  - rewrite Hrest. destruct (rev w) eqn:E; [done|].
    rewrite <- E, rev_involutive. f_equal. fold (split_ws r).
    by rewrite split_ws_lstrip.
Qed.

Lemma split_ws_go_words (cur s : str) :
  Forall (λ c, is_space c = false) cur →
  Forall (λ w, w ≠ [] ∧ Forall (λ c, is_space c = false) w)
    (split_ws_go cur s).
Proof.
  revert cur. induction s as [|c s IH]; intros cur Hcur.
  - cbn [split_ws_go]. destruct cur as [|x cur]; [done|].
    constructor; [|done]. split; [|by apply List.Forall_rev].
    cbn [rev]. by destruct (rev cur).
  - cbn [split_ws_go]. destruct (is_space c) eqn:Hc.
    + destruct cur as [|x cur]; [by apply IH|].
      constructor; [|by apply IH]. split; [|by apply List.Forall_rev].
      cbn [rev]. by destruct (rev cur).
    + apply IH. by constructor.
Qed.

Lemma split_ws_join (ws : list str) :
  Forall (λ w, w ≠ [] ∧ Forall (λ c, is_space c = false) w) ws →
  split_ws (join_blank ws) = ws.
Proof.
  induction 1 as [|w ws [Hne Hw] Hws IH]; [done|]. cbn [join_blank].
  destruct ws as [|w' ws].
  - rewrite <- (app_nil_r w) at 1. by rewrite split_ws_word.
  - rewrite split_ws_word by done. f_equal.
    by rewrite split_ws_lstrip.
Qed.

Section WhiteSpace.
Context `{Unicode}.

Lemma star_greedy_spaces {A : Type} (s : str) (f : str → A) :
  star_greedy is_space s (λ r, Some (f r)) = Some (f (lstrip s)).
Proof.
  induction s as [|c s IH]; [done|]. cbn [star_greedy lstrip].
  destruct (is_space c); [by rewrite IH|done].
Qed.

Lemma collapse_space (c : char) (s : str) :
  is_space c = true →
  re_sub false (Plus is_space) (py " ") (c :: s)
  = 32%N :: re_sub false (Plus is_space) (py " ") (lstrip s).
Proof.
  intros Hc. unfold re_sub. cbn [re_sub_go].
  assert (match_len false (Plus is_space) (c :: s)
          = Some (S (length s - length (lstrip s)))) as ->.
  { unfold match_len, Plus. cbn [re_match]. rewrite Hc.
    rewrite (star_greedy_spaces s (λ r, (length (c :: s) - length r)%nat)).
    f_equal. pose proof (lstrip_length s). cbn [length]. lia. }
  destruct (lstrip_split s) as [sp Hsp].
  replace (length s - length (lstrip s))%nat with (length sp)
    by (rewrite Hsp at 1; rewrite length_app; lia).
  rewrite Hsp at 1. by rewrite re_sub_go_skip.
Qed.

Lemma collapse_word (w rest : str) :
  Forall (λ c, is_space c = false) w →
  re_sub false (Plus is_space) (py " ") (w ++ rest)
  = w ++ re_sub false (Plus is_space) (py " ") rest.
Proof.
  unfold re_sub. induction 1 as [|c w Hc _ IH]; [done|].
  cbn [app re_sub_go].
  assert (match_len false (Plus is_space) (c :: w ++ rest) = None) as ->.
  { unfold match_len, Plus. cbn [re_match]. by rewrite Hc. }
  by rewrite IH.
Qed.

(** What collapsing leaves of a text that begins with a word: the words
    with one blank between them, and at most one blank behind. *)
Lemma collapse_words (n : nat) (s : str) :
  (length s ≤ n)%nat → s ≠ [] → lstrip s = s →
  ∃ t, re_sub false (Plus is_space) (py " ") s
       = join_blank (split_ws s) ++ t
       ∧ (t = [] ∨ t = [32%N])
       ∧ rstrip (join_blank (split_ws s)) = join_blank (split_ws s)
       ∧ lstrip (join_blank (split_ws s)) = join_blank (split_ws s)
       ∧ join_blank (split_ws s) ≠ [].
Proof.
  revert s. induction n as [|n IH]; intros s Hlen Hne Hfront.
  { destruct s; [done|cbn in Hlen; lia]. }
  destruct (word_split s) as (w & rest & -> & Hw & Hrest).
  assert (Hwne : w ≠ []).
  { intros ->. cbn [app] in *. destruct rest as [|c r]; [done|].
    cbn [lstrip] in Hfront. rewrite Hrest in Hfront.
    pose proof (lstrip_length r) as Hl. rewrite Hfront in Hl.
    cbn in Hl. lia. }
  rewrite split_ws_word, collapse_word by done.
  assert (Hwfront : ∀ tail, lstrip (w ++ tail) = w ++ tail).
  { intros tail. destruct Hw as [|c w Hc Hw]; [done|].
    cbn [app lstrip]. by rewrite Hc. }
  destruct rest as [|c r].
  - exists []. cbn [lstrip split_ws split_ws_go join_blank].
    change (re_sub false (Plus is_space) (py " ") []) with (@nil N).
    split_and!; [done|by left|by apply rstrip_word| |done].
    rewrite <- (app_nil_r w). apply Hwfront.
  - rewrite collapse_space by done. cbn [lstrip]. rewrite Hrest.
    destruct (lstrip r) as [|c' r'] eqn:Hr.
    + exists [32%N]. cbn [split_ws split_ws_go join_blank].
      change (re_sub false (Plus is_space) (py " ") []) with (@nil N).
      split_and!; [done|by right|by apply rstrip_word| |done].
      rewrite <- (app_nil_r w). apply Hwfront.
    + destruct (IH (c' :: r')) as (t & Hc & Ht & Hrs & Hls & Hj).
      * pose proof (lstrip_length r) as Hl. rewrite Hr in Hl.
        rewrite length_app in Hlen. cbn [length] in *.
        destruct w; [done|]. cbn [length] in Hlen. lia.
      * done.
      * by rewrite <- Hr, lstrip_idem.
      * exists t. rewrite Hc. cbn [join_blank].
        destruct (split_ws (c' :: r')) as [|w1 ws] eqn:Hws; [done|].
        split_and!.
        -- by rewrite <- app_assoc.
        -- done.
        -- change (w ++ 32%N :: join_blank (w1 :: ws))
             with (w ++ [32%N] ++ join_blank (w1 :: ws)).
           rewrite app_assoc, rstrip_app; [by rewrite Hrs|].
           by rewrite Hrs.
        -- apply Hwfront.
        -- by destruct w.
Qed.

Lemma collapse_strip_words (text : str) :
  match text with
  | [] => []
  | _ => strip (re_sub false (Plus is_space) (py " ") text)
  end = join_blank (split_ws text).
Proof.
  destruct text as [|c text]; [done|].
  assert (Hfront : lstrip (re_sub false (Plus is_space) (py " ") (c :: text))
                   = lstrip (re_sub false (Plus is_space) (py " ")
                               (lstrip (c :: text)))).
  { cbn [lstrip]. destruct (is_space c) eqn:Hc; [|done].
    rewrite collapse_space by done. cbn [lstrip]. done. }
  unfold strip. rewrite Hfront, <- (split_ws_lstrip (c :: text)).
  destruct (lstrip (c :: text)) as [|c' s] eqn:Hs; [done|].
  destruct (collapse_words (length (c' :: s)) (c' :: s))
    as (t & -> & Ht & Hrs & Hls & Hj); [done|done|by rewrite <- Hs, lstrip_idem|].
  rewrite lstrip_app by (by rewrite Hls). rewrite Hls.
  destruct Ht as [->| ->]; [by rewrite app_nil_r|].
  rewrite rstrip_snoc.
  change (is_space 32) with true. done.
Qed.

(** X26.  [normalize_whitespace] is [' '.join(text.split())]: the words
    of the text with one blank between them. *)
Theorem normalize_whitespace_words (text : str) :
  normalize_whitespace text = join_blank (split_ws text).
Proof. apply collapse_strip_words. Qed.

(** X27.  Normalizing white space keeps the words of the text, and
    normalizing twice is normalizing once. *)
Theorem normalize_whitespace_idempotent (text : str) :
  split_ws (normalize_whitespace text) = split_ws text
  ∧ normalize_whitespace (normalize_whitespace text)
    = normalize_whitespace text.
Proof.
  assert (Hw : split_ws (join_blank (split_ws text)) = split_ws text)
    by (by apply split_ws_join, split_ws_go_words).
  assert (Hn : ∀ t, normalize_whitespace t = join_blank (split_ws t)).
  { intros t. apply collapse_strip_words. }
  by rewrite !Hn, Hw.
Qed.

End WhiteSpace.

(** ** The collection period and the target dates *)

Lemma target_dates_loop_run (n : nat) (fuel : nat) (acc : list Z)
    (check cutoff : Z) :
  (2 ≤ cutoff)%Z → (check = cutoff + Z.of_nat n - 1)%Z → (n < fuel)%nat →
  target_dates_loop fuel acc check cutoff
  = Some (Some (acc ++ map (λ i, (check - Z.of_nat i)%Z) (seq 0 n))).
Proof.
  intros Hcut. revert fuel acc check.
  induction n as [|n IH]; intros fuel acc check Hcheck Hfuel.
  - destruct fuel as [|fuel]; [lia|]. cbn [target_dates_loop seq map].
    destruct (Z.leb_spec cutoff check); [lia|]. by rewrite app_nil_r.
  - destruct fuel as [|fuel]; [lia|]. cbn [target_dates_loop].
    destruct (Z.leb_spec cutoff check); [|lia].
    unfold day_before. destruct (Z.leb_spec check 1); [lia|].
    rewrite (IH fuel) by lia. rewrite <- app_assoc. do 3 f_equal.
    cbn [seq map app]. rewrite Z.sub_0_r. f_equal.
    rewrite <- seq_shift, map_map. apply map_ext. intros i. lia.
Qed.

Lemma cutoff_date_days (clk : clock) (k : Z) :
  valid_time (hour (local_now clk)) (minute (local_now clk))
    (second (local_now clk)) (microsecond (local_now clk)) = true →
  ((micros (local_now clk) - 24 * k * 3600000000) / 86400000000
   = ordinal (local_now clk) - k)%Z.
Proof.
  unfold valid_time, micros. intros Hv.
  repeat (apply andb_true_iff in Hv as [Hv ?]).
  repeat match goal with
    | H : (_ <=? _)%Z = true |- _ => apply Z.leb_le in H
    | H : (_ <? _)%Z = true |- _ => apply Z.ltb_lt in H
    end.
  symmetry. apply (Z.div_unique_pos _ _ _
    ((hour (local_now clk) * 3600 + minute (local_now clk) * 60
      + second (local_now clk)) * 1000000 + microsecond (local_now clk))%Z);
    lia.
Qed.

Lemma target_dates_run (clk : clock) (k : nat) (fuel : nat) :
  valid_time (hour (local_now clk)) (minute (local_now clk))
    (second (local_now clk)) (microsecond (local_now clk)) = true →
  (Z.of_nat k + 2 ≤ ordinal (local_now clk))%Z →
  (k < fuel)%nat →
  target_dates fuel clk (24 * Z.of_nat k)
  = Some (Some (map (λ i, (ordinal (local_now clk) - Z.of_nat i)%Z)
                  (seq 0 (S k)))).
Proof.
  intros Hv Hord Hfuel. unfold target_dates.
  pose proof (cutoff_date_days clk (Z.of_nat k) Hv) as Hcut.
  rewrite Hcut.
  destruct (Z.ltb_spec
              (micros (local_now clk) - 24 * Z.of_nat k * 3600000000)
              86400000000) as [Hlt|_].
  { exfalso.
    assert (Hd : ((micros (local_now clk) - 24 * Z.of_nat k * 3600000000)
                  / 86400000000 < 1)%Z)
      by (apply Z.div_lt_upper_bound; lia).
    lia. }
  unfold day_before. destruct (Z.leb_spec (ordinal (local_now clk)) 1); [lia|].
  rewrite (target_dates_loop_run k) by lia.
  cbn [seq map app]. rewrite Z.sub_0_r. f_equal. f_equal. f_equal.
  rewrite <- seq_shift, map_map. apply map_ext. intros i. lia.
Qed.

(** X28.  For a period of 24 k hours the target dates are today and the
    k days before it, the latest first; the loop ends. *)
Theorem target_dates_days (clk : clock) (k : nat) (fuel : nat) :
  valid_time (hour (local_now clk)) (minute (local_now clk))
    (second (local_now clk)) (microsecond (local_now clk)) = true →
  (Z.of_nat k + 2 ≤ ordinal (local_now clk))%Z →
  (k < fuel)%nat →
  target_dates fuel clk (24 * Z.of_nat k)
  = Some (Some (map (λ i, (ordinal (local_now clk) - Z.of_nat i)%Z)
                  (seq 0 (S k)))).
Proof. apply target_dates_run. Qed.

(** X29.  With the period of [get_collection_hours] the target dates are
    today and yesterday, and on a Monday today and the three days
    before it, back to the Friday. *)
Theorem target_dates_of_collection (clk : clock) (fuel : nat) :
  valid_time (hour (local_now clk)) (minute (local_now clk))
    (second (local_now clk)) (microsecond (local_now clk)) = true →
  (5 ≤ ordinal (local_now clk))%Z →
  (3 < fuel)%nat →
  let today := ordinal (local_now clk) in
  target_dates fuel clk (get_collection_hours clk)
  = Some (Some (if (weekday (local_now clk) =? 0)%Z
                then [today; today - 1; today - 2; today - 3]%Z
                else [today; today - 1]%Z))
  ∧ ((weekday (local_now clk) = 0)%Z → date_weekday (today - 3) = 4%Z).
Proof.
  intros Hv Hord Hfuel today. subst today. split.
  - unfold get_collection_hours.
    destruct (weekday (local_now clk) =? 0)%Z.
    + change 72%Z with (24 * Z.of_nat 3)%Z.
      rewrite target_dates_run by (done || lia).
      cbn [seq map]. by rewrite Z.sub_0_r.
    + change 24%Z with (24 * Z.of_nat 1)%Z.
      rewrite target_dates_run by (done || lia).
      cbn [seq map]. by rewrite Z.sub_0_r.
  - unfold weekday, date_weekday. intros Hm.
    replace (ordinal (local_now clk) - 3 + 6)%Z
      with ((ordinal (local_now clk) + 6) + (-1) * 7 + 4)%Z by lia.
    rewrite <- Z.add_assoc, (Z.add_comm (-1 * 7)), Z.add_assoc.
    rewrite Z.mod_add by lia. rewrite Z.add_mod by lia. rewrite Hm.
    reflexivity.
Qed.

Lemma target_dates_days_witness :
  target_dates 5 sample_clock (24 * Z.of_nat 2)
  = Some (Some (map (λ i, (ordinal (local_now sample_clock) - Z.of_nat i)%Z)
                  (seq 0 3))).
Proof.
  apply (target_dates_days sample_clock 2 5).
  - reflexivity.
  - vm_compute. discriminate.
  - lia.
Defined.

Lemma target_dates_of_collection_witness :
  let today := ordinal (local_now sample_monday) in
  target_dates 4 sample_monday (get_collection_hours sample_monday)
  = Some (Some (if (weekday (local_now sample_monday) =? 0)%Z
                then [today; today - 1; today - 2; today - 3]%Z
                else [today; today - 1]%Z))
  ∧ ((weekday (local_now sample_monday) = 0)%Z →
     date_weekday (today - 3) = 4%Z).
Proof.
  apply (target_dates_of_collection sample_monday 4).
  - reflexivity.
  - vm_compute. discriminate.
  - lia.
Defined.

(** The Monday of [sample_monday]: a period of 72 hours, and four
    target dates back to Friday, 14 June 2024. *)
Example target_dates_monday :
  get_collection_hours sample_monday = 72%Z
  ∧ target_dates 4 sample_monday 72
    = Some (Some [ymd2ord 2024 6 17; ymd2ord 2024 6 16; ymd2ord 2024 6 15;
                  ymd2ord 2024 6 14]).
Proof. by vm_compute. Qed.
